(** * opentools-cli: the [list] command

    A shallow embedding of [src/commands/list.ts] and the properties of its
    reconciliation of installed MCP servers against the registry.

    Conventions of the embedding:
    - JavaScript strings are [String.string]; a string is read as the UTF-8
      bytes of the text, so every byte above 0x7F stands for (part of) a
      character that [JSON.stringify] leaves alone.
    - [this.log] appends a line to the standard output of the command; the
      lines are kept structured ([LogLine]) and [render] gives their text.
    - A rejected promise or a [throw] is an abrupt completion carrying a
      [JsError]; [.catch] and [try]/[catch] are handlers on completions.
      The [await]s of [run] are sequential, so the command is a sequential
      program in a state made of the output and of [foundServers].
    - The registry ([servers], imported from [../data/servers/index.js]) is
      not part of the command: every function takes it as a parameter.
    - A configuration that parses is [null] or has the shape the command
      expects: the one its type annotation gives for Continue
      ([{ transport: { args: string[], command: string } }]), an object under
      [mcpServers] for Claude.  The fields the command guards with [||] and
      [?.] may be missing; on [null] the command throws a TypeError.
    - The keys of [mcpServers] are taken in the order [Object.keys]
      enumerates them. *)

From Stdlib Require Import List String Ascii Bool Arith NArith ZArith Lia Permutation.
Import ListNotations.

Local Open Scope string_scope.
Local Open Scope list_scope.

(** ** The registry *)

Module Registry.

(** [config: { command, args }] of a registry entry. *)
Record ServerConfig : Type := mkConfig {
  command : string;
  args : list string
}.

(** An element of [servers]. *)
Record Server : Type := mkServer {
  id : string;
  config : ServerConfig
}.

End Registry.

(** ** [JSON.stringify] on arrays of strings

    ECMA-262, QuoteJSONString and SerializeJSONArray, with no indentation. *)

Module JSON.

Definition dquote : ascii := ascii_of_nat 34.
Definition backslash : ascii := ascii_of_nat 92.

(** Lower-case hexadecimal digit of a value below 16. *)
Definition hexDigit (n : N) : ascii :=
  if (n <? 10)%N then ascii_of_N (48 + n) else ascii_of_N (87 + n).

(** UnicodeEscape of a code unit below 0x100: backslash, u, four digits. *)
Definition unicodeEscape (c : ascii) : string :=
  let n := N_of_ascii c in
  String backslash
    (String "u" (String "0" (String "0"
      (String (hexDigit (n / 16)) (String (hexDigit (n mod 16)) EmptyString))))).

Definition short (e : ascii) : string := String backslash (String e EmptyString).

(** What QuoteJSONString emits for one code unit. *)
Definition escapeChar (c : ascii) : string :=
  let n := N_of_ascii c in
  if (n =? 8)%N then short "b"
  else if (n =? 9)%N then short "t"
  else if (n =? 10)%N then short "n"
  else if (n =? 12)%N then short "f"
  else if (n =? 13)%N then short "r"
  else if (n =? 34)%N then short dquote
  else if (n =? 92)%N then short backslash
  else if (n <? 32)%N then unicodeEscape c
  else String c EmptyString.

Fixpoint escapeAll (s : string) : string :=
  match s with
  | EmptyString => EmptyString
  | String c rest => escapeChar c ++ escapeAll rest
  end.

Definition QuoteJSONString (s : string) : string :=
  String dquote (escapeAll s ++ String dquote EmptyString).

(** The elements of an array, separated by commas. *)
Fixpoint joinElements (l : list string) : string :=
  match l with
  | [] => EmptyString
  | [x] => QuoteJSONString x
  | x :: rest => QuoteJSONString x ++ String "," (joinElements rest)
  end.

(** [JSON.stringify(l)] for [l : string[]]. *)
Definition stringify (l : list string) : string :=
  String "[" (joinElements l ++ String "]" EmptyString).

(** Reading back: the value of a hexadecimal digit. *)
Definition hexValue (d : ascii) : option N :=
  let n := N_of_ascii d in
  if ((48 <=? n) && (n <=? 57))%N then Some (n - 48)%N
  else if ((97 <=? n) && (n <=? 102))%N then Some (n - 87)%N
  else None.

(** Reading back one escaped code unit from the front of a quoted body.
    It is only used to show that [stringify] loses no information. *)
Definition unescapeHead (s : string) : option (ascii * string) :=
  match s with
  | EmptyString => None
  | String c rest =>
      if Ascii.eqb c dquote then None
      else if Ascii.eqb c backslash then
        match rest with
        | EmptyString => None
        | String e rest' =>
            if Ascii.eqb e "b" then Some (ascii_of_nat 8, rest')
            else if Ascii.eqb e "t" then Some (ascii_of_nat 9, rest')
            else if Ascii.eqb e "n" then Some (ascii_of_nat 10, rest')
            else if Ascii.eqb e "f" then Some (ascii_of_nat 12, rest')
            else if Ascii.eqb e "r" then Some (ascii_of_nat 13, rest')
            else if Ascii.eqb e dquote then Some (dquote, rest')
            else if Ascii.eqb e backslash then Some (backslash, rest')
            else if Ascii.eqb e "u" then
              match rest' with
              | String _ (String _ (String h (String l r))) =>
                  match hexValue h, hexValue l with
                  | Some hv, Some lv => Some (ascii_of_N (16 * hv + lv), r)
                  | _, _ => None
                  end
              | _ => None
              end
            else None
        end
      else Some (c, rest)
  end.

End JSON.

(** ** The configuration files of the two clients *)

Module Claude.

(** [claude_desktop_config.json]: [mcpServers] maps an install key to its
    descriptor.  The object is kept as the list of its members in the order
    [Object.keys] enumerates them; [None] is an absent (or falsy) field. *)
Record Config : Type := mkConfig {
  mcpServers : option (list (string * Registry.ServerConfig))
}.

End Claude.

Module Continue.

(** [installed: { transport: { args: string[], command: string } }] *)
Record Transport : Type := mkTransport {
  args : list string;
  command : string
}.

Record Installed : Type := mkInstalled {
  transport : Transport
}.

Record Experimental : Type := mkExperimental {
  modelContextProtocolServers : option (list Installed)
}.

(** [~/.continue/config.json] *)
Record Config : Type := mkConfig {
  experimental : option Experimental
}.

End Continue.

(** The text of a file, seen through what [JSON.parse] makes of it: no JSON
    at all, the JSON value [null], or any other JSON value, which is read as
    a configuration (a value that is not an object has none of the fields). *)
Inductive Text (C : Type) : Type :=
| Malformed
| Null
| Wellformed (config : C).
Arguments Malformed {C}.
Arguments Null {C}.
Arguments Wellformed {C} config.

(** What [fs.readFile(path, 'utf8')] does on a path: it rejects with a system
    error carrying [code] (['ENOENT'] when nothing is there), or resolves to
    the text. *)
Inductive File (C : Type) : Type :=
| Rejects (code : string)
| Resolves (configContent : Text C).
Arguments Rejects {C} code.
Arguments Resolves {C} configContent.

(** The two paths the command reads under [os.homedir()]. *)
Record Disk : Type := mkDisk {
  claude_desktop_config : File Claude.Config;
  continue_config : File Continue.Config
}.

(** ** Output lines *)

Inductive Client : Type := claude | continue.

Definition clientDisplayNames (c : Client) : string :=
  match c with
  | claude => "Claude Desktop"
  | continue => "Continue"
  end.

(** The connector in front of an entry. *)
Inductive Prefix : Type :=
| Corner   (* the last entry of a section *)
| Tee.     (* any other entry *)

Inductive LogLine : Type :=
| Heading (c : Client)
| Linked (prefix : Prefix) (serverId : string)
| Unknown (prefix : Prefix) (serverId : string)
| NothingOn (c : Client)
| Nothing
| Empty.

Definition ESC : string := String (ascii_of_nat 27) EmptyString.
Definition BEL : string := String (ascii_of_nat 7) EmptyString.
Definition LF : string := String (ascii_of_nat 10) EmptyString.

Definition renderPrefix (p : Prefix) : string :=
  match p with
  | Corner => "└── "
  | Tee => "├── "
  end.

(** The text passed to [this.log]. *)
Definition render (l : LogLine) : string :=
  match l with
  | Heading c => LF ++ clientDisplayNames c
  | Linked prefix serverId =>
      renderPrefix prefix ++
      (ESC ++ "]8;;https://opentools.com/registry/" ++ serverId ++ BEL ++
       serverId ++ ESC ++ "]8;;" ++ BEL)
  | Unknown prefix serverId =>
      ESC ++ "[31m" ++ renderPrefix prefix ++ serverId ++ " (unknown)" ++
      ESC ++ "[0m"
  | NothingOn c =>
      "No MCP servers currently installed on " ++ clientDisplayNames c ++ "."
  | Nothing => "No MCP servers currently installed."
  | Empty => EmptyString
  end%string.

(** ** Effects: output, the [foundServers] cell, exceptions *)

Inductive JsError : Type :=
| SystemError (code : string)   (* from [fs.readFile]; has a [code] *)
| SyntaxError                   (* from [JSON.parse]; has no [code] *)
| TypeError.                    (* from reading a property of [null]; no [code] *)

Inductive Completion (A : Type) : Type :=
| Returns (a : A)
| Throws (error : JsError).
Arguments Returns {A} a.
Arguments Throws {A} error.

Record World : Type := mkWorld {
  foundServers : bool;
  stdout : list LogLine
}.

Definition Eff (A : Type) : Type := World -> Completion A * World.

Definition ret {A} (a : A) : Eff A := fun w => (Returns a, w).

Definition bind {A B} (m : Eff A) (k : A -> Eff B) : Eff B :=
  fun w =>
    match m w with
    | (Returns a, w') => k a w'
    | (Throws error, w') => (Throws error, w')
    end.

Notation "x <- m ;; k" := (bind m (fun x => k))
  (at level 61, m at next level, right associativity).
Notation "m ;;; k" := (bind m (fun _ => k))
  (at level 61, right associativity).

Definition throw {A} (error : JsError) : Eff A := fun w => (Throws error, w).

(** [try { body } catch (error) { handler }], also [promise.catch(handler)]. *)
Definition tryCatch {A} (body : Eff A) (handler : JsError -> Eff A) : Eff A :=
  fun w =>
    match body w with
    | (Returns a, w') => (Returns a, w')
    | (Throws error, w') => handler error w'
    end.

Definition log (l : LogLine) : Eff unit :=
  fun w => (Returns tt, mkWorld (foundServers w) (stdout w ++ [l])).

Definition readFile {C} (f : File C) : Eff (Text C) :=
  match f with
  | Rejects code => throw (SystemError code)
  | Resolves configContent => ret configContent
  end.

(** [JSON.parse(configContent)]; [None] is the value [null]. *)
Definition JSON_parse {C} (configContent : Text C) : Eff (option C) :=
  match configContent with
  | Malformed => throw SyntaxError
  | Null => ret None
  | Wellformed config => ret (Some config)
  end.

(** An expression that reads properties of [config], as [config.mcpServers]
    or [config.experimental?.modelContextProtocolServers]: reading a property
    of [null] throws a TypeError. *)
Definition access {C A} (config : option C) (expression : C -> A) : Eff A :=
  match config with
  | Some value => ret (expression value)
  | None => throw TypeError
  end.

(** [error instanceof Error && 'code' in error && error.code === 'ENOENT'] *)
Definition isENOENT (error : JsError) : bool :=
  match error with
  | SystemError code => (code =? "ENOENT")%string
  | SyntaxError => false
  | TypeError => false
  end.

(** [for (const [index, x] of xs.entries()) body], counting from [index]. *)
Fixpoint forEntries {A} (index : Z) (xs : list A) (body : Z -> A -> Eff unit)
  : Eff unit :=
  match xs with
  | [] => ret tt
  | x :: rest => body index x ;;; forEntries (index + 1) rest body
  end.

(** ** Small pieces of JavaScript *)

(** [a || b] on a possibly missing value. *)
Definition orElse {A} (a : option A) (b : A) : A :=
  match a with
  | Some v => v
  | None => b
  end.

(** [Object.keys(o)] *)
Definition Object_keys {V} (o : list (string * V)) : list string := map fst o.

(** [xs.some(p)] *)
Definition some {A} (p : A -> bool) (xs : list A) : bool := existsb p xs.

(** [xs.slice(start, stop)] for indices that are not negative. *)
Definition slice {A} (start stop : nat) (xs : list A) : list A :=
  firstn (stop - start) (skipn start xs).

Definition lengthZ {A} (xs : list A) : Z := Z.of_nat (List.length xs).

(** ** The command *)

(** [flags.client]: ['claude'], ['continue'] or not given. *)
Record Flags : Type := mkFlags {
  client : option Client
}.

Section ListCommand.

Variable servers : list Registry.Server.
Variable disk : Disk.

(** Lines 81 and 82: the two filters of [listClaudeServers]. *)
Definition registeredServers (installedServers : list string) : list string :=
  filter (fun id => some (fun s => (Registry.id s =? id)%string) servers)
         installedServers.

Definition unknownServers (installedServers : list string) : list string :=
  filter (fun id => negb (some (fun s => (Registry.id s =? id)%string) servers))
         installedServers.

Definition listClaudeServers : Eff bool :=
  tryCatch
    (configContent <- readFile (claude_desktop_config disk) ;;
     config <- JSON_parse configContent ;;
     installedServers <-
       access config
              (fun config => Object_keys (orElse (Claude.mcpServers config) [])) ;;
     if (lengthZ installedServers >? 0)%Z then
       log (Heading claude) ;;;
       let registeredServers := registeredServers installedServers in
       let unknownServers := unknownServers installedServers in
       forEntries 0 registeredServers (fun index serverId =>
         let prefix :=
           if ((index =? lengthZ registeredServers - 1)%Z
               && (lengthZ unknownServers =? 0)%Z)%bool
           then Corner else Tee in
         log (Linked prefix serverId)) ;;;
       forEntries 0 unknownServers (fun index serverId =>
         let prefix :=
           if (index =? lengthZ unknownServers - 1)%Z then Corner else Tee in
         log (Unknown prefix serverId)) ;;;
       ret true
     else
       ret false)
    (fun error => if isENOENT error then ret false else throw error).

(** Lines 130 and 131: the test of one installed server against one
    registry server. *)
Definition structuralMatch (registryServer : Registry.Server)
                           (installed : Continue.Installed) : bool :=
  ((Continue.command (Continue.transport installed)
      =? Registry.command (Registry.config registryServer))%string
   && (JSON.stringify
         (slice 0 (List.length (Registry.args (Registry.config registryServer)))
                (Continue.args (Continue.transport installed)))
         =? JSON.stringify (Registry.args (Registry.config registryServer)))%string
  )%bool.

(** Lines 127 to 134. *)
Definition validServers (installedServers : list Continue.Installed)
  : list string :=
  map Registry.id
      (filter (fun registryServer =>
                 some (fun installed => structuralMatch registryServer installed)
                      installedServers)
              servers).

(** [config.experimental?.modelContextProtocolServers || []] *)
Definition continueInstalled (config : Continue.Config)
  : list Continue.Installed :=
  orElse
    (match Continue.experimental config with
     | Some experimental => Continue.modelContextProtocolServers experimental
     | None => None
     end)
    [].

Definition listContinueServers : Eff bool :=
  tryCatch
    (configContent <- readFile (continue_config disk) ;;
     config <- JSON_parse configContent ;;
     installedServers <- access config continueInstalled ;;
     let validServers := validServers installedServers in
     if (lengthZ validServers >? 0)%Z then
       log (Heading continue) ;;;
       forEntries 0 validServers (fun index serverId =>
         let prefix :=
           if (index =? lengthZ validServers - 1)%Z then Corner else Tee in
         log (Linked prefix serverId)) ;;;
       ret true
     else
       ret false)
    (fun error => if isENOENT error then ret false else throw error).

(** [foundServers = foundServers || found] *)
Definition trackServers (found : bool) : Eff unit :=
  fun w => (Returns tt, mkWorld (foundServers w || found) (stdout w)).

Definition run (flags : Flags) : Eff unit :=
  (fun w => (Returns tt, mkWorld false (stdout w))) ;;;
  (match client flags with
   | Some claude =>
       found <- listClaudeServers ;; trackServers found
   | Some continue =>
       found <- listContinueServers ;; trackServers found
   | None =>
       found <- tryCatch listClaudeServers (fun _ => ret false) ;;
       trackServers found ;;;
       found <- tryCatch listContinueServers (fun _ => ret false) ;;
       trackServers found
   end) ;;;
  (fun w =>
     (if negb (foundServers w) then
        match client flags with
        | Some c => log (NothingOn (c))
        | None => log Nothing
        end
      else ret tt) w) ;;;
  log Empty.

End ListCommand.

(** ** Reading the output *)

(** The state in which the command starts. *)
Definition start : World := mkWorld false [].

(** An entry of the listing: the identifier shown and whether it is shown as
    a registry server ([true]) or as unknown ([false]). *)
Definition entryOf (l : LogLine) : list (string * bool) :=
  match l with
  | Linked _ serverId => [(serverId, true)]
  | Unknown _ serverId => [(serverId, false)]
  | _ => []
  end.

Definition entries (out : list LogLine) : list (string * bool) :=
  flat_map entryOf out.

(** The state after more lines went out. *)
Definition emit (w : World) (ls : list LogLine) : World :=
  mkWorld (foundServers w) (stdout w ++ ls).

(** The entries an inspector prints when it runs on its own. *)
Definition inspect (inspector : Eff bool) : list (string * bool) :=
  entries (stdout (snd (inspector start))).

(** Whatever the file, an inspector ends with one completion and one list of
    lines, the same in every state; it returns [true] exactly when it listed
    something, and it prints nothing otherwise. *)
Definition Settled (inspector : Eff bool) : Prop :=
  exists c ls,
    (forall w, inspector w = (c, emit w ls))
    /\ (c = Returns true <-> entries ls <> [])
    /\ (c <> Returns true -> ls = []).

(** What [promise.catch(() => false)] resolves to. *)
Definition caught (c : Completion bool) : bool :=
  match c with
  | Returns found => found
  | Throws _ => false
  end.

(** The connector a line carries, if it is the line of an entry. *)
Definition connector (l : LogLine) : list Prefix :=
  match l with
  | Linked prefix _ => [prefix]
  | Unknown prefix _ => [prefix]
  | _ => []
  end.

(** The lines a loop prints when its body prints [line index x]. *)
Fixpoint linesFrom {A} (line : Z -> A -> LogLine) (index : Z) (xs : list A)
  : list LogLine :=
  match xs with
  | [] => []
  | x :: rest => line index x :: linesFrom line (index + 1) rest
  end.

(** What an inspector prints when it runs on its own. *)
Definition printed (inspector : Eff bool) : list LogLine :=
  stdout (snd (inspector start)).

(** A section of the listing: the heading of the client, then at least one
    line, each the line of an entry, the last one with the corner and the
    others with the tee. *)
Definition TreeSection (c : Client) (ls : list LogLine) : Prop :=
  exists body,
    ls = Heading c :: body
    /\ body <> []
    /\ List.length (entries body) = List.length body
    /\ flat_map connector body = repeat Tee (List.length body - 1) ++ [Corner].

(** ** The reconciliation as the specification words it

    Used only to compare with the command. *)

Module Spec.

(** Structural-prefix match, in the words of the specification: equal
    commands, and the arguments cut to the length of the template are the
    template. *)
Definition prefixMatch (r : Registry.Server) (ref : Continue.Installed) : Prop :=
  Continue.command (Continue.transport ref) = Registry.command (Registry.config r)
  /\ firstn (List.length (Registry.args (Registry.config r)))
            (Continue.args (Continue.transport ref))
     = Registry.args (Registry.config r).

(** First matching registry server wins. *)
Definition firstMatch (servers : list Registry.Server) (ref : Continue.Installed)
  : option Registry.Server :=
  find (fun r => structuralMatch r ref) servers.

(** One entry for each matched reference, in the order of the references in
    the file; references without a match are left out. *)
Definition structuralEntries (servers : list Registry.Server)
                             (refs : list Continue.Installed)
  : list (string * bool) :=
  flat_map (fun ref =>
              match firstMatch servers ref with
              | Some r => [(Registry.id r, true)]
              | None => []
              end)
           refs.

End Spec.

(** ** Sample data *)

Module Samples.

Definition fs : Registry.Server :=
  Registry.mkServer "fs" (Registry.mkConfig "npx" ["-y"; "fs-server"]).

Definition git : Registry.Server :=
  Registry.mkServer "git" (Registry.mkConfig "uvx" ["mcp-server-git"]).

(** A registry entry whose template is a prefix of the template of [fs]. *)
Definition npxAny : Registry.Server :=
  Registry.mkServer "npx-any" (Registry.mkConfig "npx" ["-y"]).

Definition installed (command : string) (args : list string) : Continue.Installed :=
  Continue.mkInstalled (Continue.mkTransport args command).

Definition refFs : Continue.Installed :=
  installed "npx" ["-y"; "fs-server"; "--verbose"].

Definition refFsPlain : Continue.Installed :=
  installed "npx" ["-y"; "fs-server"].

Definition refGit : Continue.Installed :=
  installed "uvx" ["mcp-server-git"].

(** Same command as [fs], another first argument. *)
Definition refOther : Continue.Installed :=
  installed "npx" ["-q"; "fs-server"].

Definition continueConfig (refs : list Continue.Installed) : Continue.Config :=
  Continue.mkConfig (Some (Continue.mkExperimental (Some refs))).

Definition claudeConfig (keys : list string) : Claude.Config :=
  Claude.mkConfig
    (Some (map (fun k => (k, Registry.mkConfig "npx" ["-y"; k])) keys)).

(** Both files in place. *)
Definition diskOf (keys : list string) (refs : list Continue.Installed) : Disk :=
  mkDisk (Resolves (Wellformed (claudeConfig keys)))
         (Resolves (Wellformed (continueConfig refs))).

(** Claude's file is not JSON; Continue's file is in place. *)
Definition diskClaudeCorrupt (refs : list Continue.Installed) : Disk :=
  mkDisk (Resolves Malformed) (Resolves (Wellformed (continueConfig refs))).

(** Neither client is installed. *)
Definition diskEmpty : Disk := mkDisk (Rejects "ENOENT") (Rejects "ENOENT").

End Samples.

(** ** Facts about [JSON.stringify] *)

Lemma append_assoc (a b c : string) : ((a ++ b) ++ c = a ++ (b ++ c))%string.
Proof.
  induction a as [|x a IH]; simpl; [reflexivity | now rewrite IH].
Qed.

Lemma unescapeHead_escapeChar (c : ascii) (t : string) :
  JSON.unescapeHead (JSON.escapeChar c ++ t)%string = Some (c, t).
Proof.
  destruct c as [[] [] [] [] [] [] [] []]; reflexivity.
Qed.

Lemma unescapeHead_dquote (t : string) :
  JSON.unescapeHead (String JSON.dquote t) = None.
Proof. reflexivity. Qed.

(** A quoted body followed by its closing quote can be read back in one way
    only. *)
Lemma escapeAll_closed_inj (s1 s2 t1 t2 : string) :
  (JSON.escapeAll s1 ++ String JSON.dquote t1 =
   JSON.escapeAll s2 ++ String JSON.dquote t2)%string ->
  s1 = s2 /\ t1 = t2.
Proof.
  revert s2; induction s1 as [|c1 r1 IH]; intros [|c2 r2]; simpl; intros H.
  - injection H as ->. now split.
  - rewrite append_assoc in H. apply (f_equal JSON.unescapeHead) in H.
    rewrite unescapeHead_escapeChar in H. discriminate H.
  - rewrite append_assoc in H. apply (f_equal JSON.unescapeHead) in H.
    rewrite unescapeHead_escapeChar in H. discriminate H.
  - rewrite !append_assoc in H. apply (f_equal JSON.unescapeHead) in H.
    rewrite !unescapeHead_escapeChar in H.
    injection H as -> H. destruct (IH _ H) as [-> ->]. now split.
Qed.

Lemma QuoteJSONString_inj (s1 s2 t1 t2 : string) :
  (JSON.QuoteJSONString s1 ++ t1 = JSON.QuoteJSONString s2 ++ t2)%string ->
  s1 = s2 /\ t1 = t2.
Proof.
  unfold JSON.QuoteJSONString. simpl. rewrite !append_assoc. simpl.
  intros H. injection H as H. now apply escapeAll_closed_inj.
Qed.

Lemma joinElements_cons2 (x y : string) (r : list string) :
  JSON.joinElements (x :: y :: r) =
  (JSON.QuoteJSONString x ++ String "," (JSON.joinElements (y :: r)))%string.
Proof. reflexivity. Qed.

Lemma joinElements_closed_inj (l1 l2 : list string) :
  (JSON.joinElements l1 ++ String "]" EmptyString =
   JSON.joinElements l2 ++ String "]" EmptyString)%string ->
  l1 = l2.
Proof.
  revert l2; induction l1 as [|x1 r1 IH]; intros [|x2 r2] H.
  - reflexivity.
  - destruct r2; discriminate H.
  - destruct r1; discriminate H.
  - destruct r1 as [|y1 r1], r2 as [|y2 r2].
    + apply QuoteJSONString_inj in H. destruct H as [-> _]. reflexivity.
    + rewrite joinElements_cons2, append_assoc in H.
      apply QuoteJSONString_inj in H. destruct H as [_ H]. discriminate H.
    + rewrite joinElements_cons2, append_assoc in H.
      apply QuoteJSONString_inj in H. destruct H as [_ H]. discriminate H.
    + rewrite !joinElements_cons2, !append_assoc in H.
      apply QuoteJSONString_inj in H. destruct H as [-> H].
      injection H as H. now rewrite (IH (y2 :: r2) H).
Qed.

(** Two arrays of strings have the same JSON text only when they are the
    same array. *)
Lemma stringify_inj (l1 l2 : list string) :
  JSON.stringify l1 = JSON.stringify l2 -> l1 = l2.
Proof.
  unfold JSON.stringify. intros H. injection H as H.
  now apply joinElements_closed_inj.
Qed.

Lemma stringify_eqb (l1 l2 : list string) :
  (JSON.stringify l1 =? JSON.stringify l2)%string = true <-> l1 = l2.
Proof.
  rewrite String.eqb_eq. split; [apply stringify_inj | now intros ->].
Qed.

(** ** Facts about the effects *)

Lemma emit_nil (w : World) : emit w [] = w.
Proof. destruct w; unfold emit; simpl. now rewrite app_nil_r. Qed.

Lemma emit_emit (w : World) (l1 l2 : list LogLine) :
  emit (emit w l1) l2 = emit w (l1 ++ l2).
Proof. unfold emit; simpl. now rewrite app_assoc. Qed.

Lemma log_emit (l : LogLine) (w : World) : log l w = (Returns tt, emit w [l]).
Proof. reflexivity. Qed.

Lemma entries_app (l1 l2 : list LogLine) :
  entries (l1 ++ l2) = entries l1 ++ entries l2.
Proof. unfold entries. apply flat_map_app. Qed.

Lemma flat_map_single {A B} (f : A -> B) (xs : list A) :
  flat_map (fun x => [f x]) xs = map f xs.
Proof. induction xs as [|x xs IH]; simpl; [reflexivity | now rewrite IH]. Qed.

(** A loop whose body prints one line for each element goes through the
    elements in order and ends normally. *)
Lemma forEntries_log {A} (line : Z -> A -> LogLine)
      (entry : A -> list (string * bool)) (xs : list A) :
  (forall i x, entryOf (line i x) = entry x) ->
  forall index, exists ls,
    (forall w, forEntries index xs (fun i x => log (line i x)) w
               = (Returns tt, emit w ls))
    /\ entries ls = flat_map entry xs.
Proof.
  intros Hline. induction xs as [|x xs IH]; intros index.
  - exists []. split; [|reflexivity]. intros w. now rewrite emit_nil.
  - destruct (IH (index + 1)%Z) as [ls [Hrun Hls]].
    exists (line index x :: ls). split.
    + intros w. simpl. unfold bind. rewrite log_emit, Hrun, emit_emit.
      reflexivity.
    + change (line index x :: ls) with ([line index x] ++ ls).
      rewrite entries_app, Hls. simpl. rewrite Hline, app_nil_r. reflexivity.
Qed.

Lemma lengthZ_pos {A} (xs : list A) :
  (lengthZ xs >? 0)%Z = match xs with [] => false | _ :: _ => true end.
Proof.
  destruct xs as [|x xs]; [reflexivity|].
  unfold lengthZ. simpl List.length. apply Z.gtb_lt. lia.
Qed.

(** ** The two inspectors, case by case *)

Section Inspectors.

Variable servers : list Registry.Server.

Lemma listClaudeServers_rejects (disk : Disk) (code : string) :
  claude_desktop_config disk = Rejects code ->
  forall w, listClaudeServers servers disk w
            = (if (code =? "ENOENT")%string then Returns false
               else Throws (SystemError code), w).
Proof.
  intros Hfile w. unfold listClaudeServers, tryCatch, bind.
  rewrite Hfile. simpl. destruct (code =? "ENOENT")%string; reflexivity.
Qed.

Lemma listClaudeServers_malformed (disk : Disk) :
  claude_desktop_config disk = Resolves Malformed ->
  forall w, listClaudeServers servers disk w = (Throws SyntaxError, w).
Proof.
  intros Hfile w. unfold listClaudeServers, tryCatch, bind.
  rewrite Hfile. reflexivity.
Qed.

Lemma listClaudeServers_null (disk : Disk) :
  claude_desktop_config disk = Resolves Null ->
  forall w, listClaudeServers servers disk w = (Throws TypeError, w).
Proof.
  intros Hfile w. unfold listClaudeServers, tryCatch, bind.
  rewrite Hfile. reflexivity.
Qed.

Lemma listClaudeServers_wellformed (disk : Disk) (config : Claude.Config) :
  claude_desktop_config disk = Resolves (Wellformed config) ->
  let installedServers := Object_keys (orElse (Claude.mcpServers config) []) in
  exists ls,
    (forall w, listClaudeServers servers disk w
               = (Returns (match installedServers with [] => false | _ => true end),
                  emit w ls))
    /\ entries ls
       = map (fun id => (id, true)) (registeredServers servers installedServers)
         ++ map (fun id => (id, false)) (unknownServers servers installedServers)
    /\ (installedServers = [] -> ls = []).
Proof.
  intros Hfile installedServers.
  unfold listClaudeServers, tryCatch, bind. rewrite Hfile. simpl.
  fold installedServers. rewrite lengthZ_pos.
  destruct installedServers as [|k ks] eqn:Hkeys.
  - exists []. repeat split. intros w. now rewrite emit_nil.
  - rewrite <- Hkeys.
    set (reg := registeredServers servers installedServers).
    set (unk := unknownServers servers installedServers).
    destruct (forEntries_log
                (fun index serverId =>
                   Linked (if ((index =? lengthZ reg - 1)%Z
                               && (lengthZ unk =? 0)%Z)%bool
                           then Corner else Tee) serverId)
                (fun id => [(id, true)]) reg (fun _ _ => eq_refl) 0%Z)
      as [l1 [H1 E1]].
    destruct (forEntries_log
                (fun index serverId =>
                   Unknown (if (index =? lengthZ unk - 1)%Z
                            then Corner else Tee) serverId)
                (fun id => [(id, false)]) unk (fun _ _ => eq_refl) 0%Z)
      as [l2 [H2 E2]].
    exists (Heading claude :: l1 ++ l2). split; [|split].
    + intros w. rewrite H1. cbv beta iota. rewrite H2.
      unfold ret, emit; simpl. rewrite <- !app_assoc. reflexivity.
    + change (Heading claude :: l1 ++ l2) with ([Heading claude] ++ l1 ++ l2).
      rewrite !entries_app, E1, E2, !flat_map_single. reflexivity.
    + intros Hnil. rewrite Hnil in Hkeys. discriminate Hkeys.
Qed.

Lemma listContinueServers_rejects (disk : Disk) (code : string) :
  continue_config disk = Rejects code ->
  forall w, listContinueServers servers disk w
            = (if (code =? "ENOENT")%string then Returns false
               else Throws (SystemError code), w).
Proof.
  intros Hfile w. unfold listContinueServers, tryCatch, bind.
  rewrite Hfile. simpl. destruct (code =? "ENOENT")%string; reflexivity.
Qed.

Lemma listContinueServers_malformed (disk : Disk) :
  continue_config disk = Resolves Malformed ->
  forall w, listContinueServers servers disk w = (Throws SyntaxError, w).
Proof.
  intros Hfile w. unfold listContinueServers, tryCatch, bind.
  rewrite Hfile. reflexivity.
Qed.

Lemma listContinueServers_null (disk : Disk) :
  continue_config disk = Resolves Null ->
  forall w, listContinueServers servers disk w = (Throws TypeError, w).
Proof.
  intros Hfile w. unfold listContinueServers, tryCatch, bind.
  rewrite Hfile. reflexivity.
Qed.

Lemma listContinueServers_wellformed (disk : Disk) (config : Continue.Config) :
  continue_config disk = Resolves (Wellformed config) ->
  let valid := validServers servers (continueInstalled config) in
  exists ls,
    (forall w, listContinueServers servers disk w
               = (Returns (match valid with [] => false | _ => true end),
                  emit w ls))
    /\ entries ls = map (fun id => (id, true)) valid
    /\ (valid = [] -> ls = []).
Proof.
  intros Hfile valid.
  unfold listContinueServers, tryCatch, bind. rewrite Hfile. simpl.
  fold valid. rewrite lengthZ_pos.
  destruct valid as [|k ks] eqn:Hvalid.
  - exists []. repeat split. intros w. now rewrite emit_nil.
  - rewrite <- Hvalid.
    destruct (forEntries_log
                (fun index serverId =>
                   Linked (if (index =? lengthZ valid - 1)%Z
                           then Corner else Tee) serverId)
                (fun id => [(id, true)]) valid (fun _ _ => eq_refl) 0%Z)
      as [l1 [H1 E1]].
    exists (Heading continue :: l1). split; [|split].
    + intros w. rewrite H1.
      unfold ret, emit; simpl. rewrite <- !app_assoc. reflexivity.
    + change (Heading continue :: l1) with ([Heading continue] ++ l1).
      rewrite !entries_app, E1, !flat_map_single. reflexivity.
    + intros Hnil. rewrite Hnil in Hvalid. discriminate Hvalid.
Qed.

End Inspectors.

(** ** Structural-prefix match *)

Lemma slice_from_0 {A} (n : nat) (xs : list A) : slice 0 n xs = firstn n xs.
Proof. unfold slice. now rewrite Nat.sub_0_r. Qed.

Lemma firstn_template_extra {A} (template extra : list A) :
  firstn (List.length template) (template ++ extra) = template.
Proof.
  rewrite firstn_app, firstn_all, Nat.sub_diag. simpl. apply app_nil_r.
Qed.

(** The test of lines 130 and 131 decides the match of the specification. *)
Lemma structuralMatch_iff (r : Registry.Server) (ref : Continue.Installed) :
  structuralMatch r ref = true <-> Spec.prefixMatch r ref.
Proof.
  unfold structuralMatch, Spec.prefixMatch.
  rewrite andb_true_iff, String.eqb_eq, stringify_eqb, slice_from_0.
  reflexivity.
Qed.

(** C1. Structural-prefix reconciliation: an installed reference matches a
    registry server exactly when the commands are equal and the arguments of
    the reference, cut to the length of the argument template, are the
    template.  So a reference whose arguments are the template followed by
    anything matches, and a reference whose arguments differ from the
    template at an index inside the template does not, whatever its
    command. *)
Theorem structural_prefix_match (r : Registry.Server) (ref : Continue.Installed) :
  let template := Registry.args (Registry.config r) in
  let given := Continue.args (Continue.transport ref) in
  (structuralMatch r ref = true <->
   Continue.command (Continue.transport ref) = Registry.command (Registry.config r)
   /\ firstn (List.length template) given = template)
  /\ (forall extra,
        Continue.command (Continue.transport ref)
          = Registry.command (Registry.config r) ->
        given = template ++ extra ->
        structuralMatch r ref = true)
  /\ (forall i,
        i < List.length template ->
        nth_error given i <> nth_error template i ->
        structuralMatch r ref = false).
Proof.
  intros template given. split; [|split].
  - apply structuralMatch_iff.
  - intros extra Hcommand Hargs. apply structuralMatch_iff. split; [exact Hcommand|].
    fold given template. rewrite Hargs. apply firstn_template_extra.
  - intros i Hi Hdiff. apply not_true_is_false. intros Hmatch.
    apply structuralMatch_iff in Hmatch. destruct Hmatch as [_ Hprefix].
    fold given template in Hprefix. apply Hdiff.
    transitivity (nth_error (firstn (List.length template) given) i).
    + rewrite nth_error_firstn. apply Nat.ltb_lt in Hi. now rewrite Hi.
    + now rewrite Hprefix.
Qed.

(** The filesystem server of the registry, a reference to it with one more
    flag, and a reference whose first argument is another one. *)
Lemma structural_prefix_match_witness :
  structuralMatch
    (Registry.mkServer "fs" (Registry.mkConfig "npx" ["-y"; "fs-server"]))
    (Continue.mkInstalled
       (Continue.mkTransport ["-y"; "fs-server"; "--verbose"] "npx")) = true
  /\ structuralMatch
       (Registry.mkServer "fs" (Registry.mkConfig "npx" ["-y"; "fs-server"]))
       (Continue.mkInstalled
          (Continue.mkTransport ["-q"; "fs-server"] "npx")) = false.
Proof.
  split.
  - apply (proj1 (proj2 (structural_prefix_match
             (Registry.mkServer "fs" (Registry.mkConfig "npx" ["-y"; "fs-server"]))
             (Continue.mkInstalled
                (Continue.mkTransport ["-y"; "fs-server"; "--verbose"] "npx"))))
           ["--verbose"]); reflexivity.
  - apply (proj2 (proj2 (structural_prefix_match
             (Registry.mkServer "fs" (Registry.mkConfig "npx" ["-y"; "fs-server"]))
             (Continue.mkInstalled
                (Continue.mkTransport ["-q"; "fs-server"] "npx"))))
           0); simpl; [lia | discriminate].
Defined.

(** ** What the inspectors list *)

Lemma inspect_emits (m : Eff bool) (c : Completion bool) (ls : list LogLine) :
  (forall w, m w = (c, emit w ls)) -> inspect m = entries ls.
Proof. intros H. unfold inspect. rewrite H. reflexivity. Qed.

Lemma inspect_silent (m : Eff bool) (c : Completion bool) :
  (forall w, m w = (c, w)) -> inspect m = [].
Proof. intros H. unfold inspect. rewrite H. reflexivity. Qed.

Lemma some_id_iff (servers : list Registry.Server) (x : string) :
  some (fun s => (Registry.id s =? x)%string) servers = true
  <-> exists r, In r servers /\ Registry.id r = x.
Proof.
  unfold some. rewrite existsb_exists.
  split; intros [r [Hin Hid]]; exists r; split; trivial;
    now apply String.eqb_eq.
Qed.

Lemma in_tagged {A} (b b' : bool) (x : A) (l : list A) :
  In (x, b) (map (fun y => (y, b')) l) <-> In x l /\ b = b'.
Proof.
  rewrite in_map_iff. split.
  - intros [y [Heq Hin]]. injection Heq as -> ->. now split.
  - intros [Hin ->]. now exists x.
Qed.

Section ClaudeListing.

Variable servers : list Registry.Server.
Variable disk : Disk.
Variable config : Claude.Config.
Hypothesis Hfile : claude_desktop_config disk = Resolves (Wellformed config).

Lemma inspect_listClaudeServers :
  inspect (listClaudeServers servers disk)
  = map (fun id => (id, true))
        (registeredServers servers
           (Object_keys (orElse (Claude.mcpServers config) [])))
    ++ map (fun id => (id, false))
           (unknownServers servers
              (Object_keys (orElse (Claude.mcpServers config) []))).
Proof.
  destruct (listClaudeServers_wellformed servers disk config Hfile)
    as [ls [Hrun [Hentries _]]].
  rewrite (inspect_emits _ _ _ Hrun). exact Hentries.
Qed.

Lemma listed_registered (x : string) :
  In (x, true) (inspect (listClaudeServers servers disk))
  <-> In x (Object_keys (orElse (Claude.mcpServers config) []))
      /\ exists r, In r servers /\ Registry.id r = x.
Proof.
  rewrite inspect_listClaudeServers, in_app_iff, !in_tagged.
  unfold registeredServers. rewrite filter_In, some_id_iff.
  split.
  - intros [[H _]|[_ H]]; [exact H | discriminate H].
  - intros H. left. now split.
Qed.

Lemma listed_unknown (x : string) :
  In (x, false) (inspect (listClaudeServers servers disk))
  <-> In x (Object_keys (orElse (Claude.mcpServers config) []))
      /\ ~ exists r, In r servers /\ Registry.id r = x.
Proof.
  rewrite inspect_listClaudeServers, in_app_iff, !in_tagged.
  unfold unknownServers. rewrite filter_In, negb_true_iff.
  rewrite <- not_true_iff_false, some_id_iff.
  split.
  - intros [[_ H]|[H _]]; [discriminate H | exact H].
  - intros H. right. now split.
Qed.

End ClaudeListing.

Section ContinueListing.

Variable servers : list Registry.Server.
Variable disk : Disk.
Variable config : Continue.Config.
Hypothesis Hfile : continue_config disk = Resolves (Wellformed config).

Lemma inspect_listContinueServers :
  inspect (listContinueServers servers disk)
  = map (fun id => (id, true)) (validServers servers (continueInstalled config)).
Proof.
  destruct (listContinueServers_wellformed servers disk config Hfile)
    as [ls [Hrun [Hentries _]]].
  rewrite (inspect_emits _ _ _ Hrun). exact Hentries.
Qed.

End ContinueListing.

(** The inspector of Continue is determined by the identifiers it finds. *)
Lemma listContinueServers_ext (servers : list Registry.Server)
      (disk disk' : Disk) (config config' : Continue.Config) :
  continue_config disk = Resolves (Wellformed config) ->
  continue_config disk' = Resolves (Wellformed config') ->
  validServers servers (continueInstalled config)
  = validServers servers (continueInstalled config') ->
  forall w, listContinueServers servers disk w = listContinueServers servers disk' w.
Proof.
  intros Hfile Hfile' Hvalid w. unfold listContinueServers, tryCatch, bind.
  rewrite Hfile, Hfile'. simpl. rewrite Hvalid. reflexivity.
Qed.

(** C2. Exact-key reconciliation: an install key of Claude's configuration is
    listed as a registry server exactly when some server of the registry has
    that identifier, and it is listed as unknown exactly when none has. *)
Theorem exact_key_reconciliation
        (servers : list Registry.Server) (disk : Disk)
        (config : Claude.Config) (x : string) :
  claude_desktop_config disk = Resolves (Wellformed config) ->
  In x (Object_keys (orElse (Claude.mcpServers config) [])) ->
  (In (x, true) (inspect (listClaudeServers servers disk))
   <-> exists r, In r servers /\ Registry.id r = x)
  /\ (In (x, false) (inspect (listClaudeServers servers disk))
      <-> ~ exists r, In r servers /\ Registry.id r = x).
Proof.
  intros Hfile Hin.
  rewrite (listed_registered servers disk config Hfile).
  rewrite (listed_unknown servers disk config Hfile).
  tauto.
Qed.

Lemma exact_key_reconciliation_witness :
  In ("fs", true)
     (inspect (listClaudeServers [Samples.fs; Samples.git]
                                 (Samples.diskOf ["ghost"; "fs"] [])))
  /\ In ("ghost", false)
        (inspect (listClaudeServers [Samples.fs; Samples.git]
                                    (Samples.diskOf ["ghost"; "fs"] []))).
Proof.
  split.
  - apply (proj1 (exact_key_reconciliation
                    [Samples.fs; Samples.git]
                    (Samples.diskOf ["ghost"; "fs"] [])
                    (Samples.claudeConfig ["ghost"; "fs"]) "fs"
                    eq_refl (or_intror (or_introl eq_refl)))).
    exists Samples.fs. split; [left|]; reflexivity.
  - apply (proj2 (exact_key_reconciliation
                    [Samples.fs; Samples.git]
                    (Samples.diskOf ["ghost"; "fs"] [])
                    (Samples.claudeConfig ["ghost"; "fs"]) "ghost"
                    eq_refl (or_introl eq_refl))).
    intros [r [[<-|[<-|[]]] Hid]]; discriminate Hid.
Defined.

(** ** References without a match *)

Lemma validServers_unmatched (servers : list Registry.Server)
      (before after : list Continue.Installed) (ref : Continue.Installed) :
  (forall r, In r servers -> structuralMatch r ref = false) ->
  validServers servers (before ++ ref :: after)
  = validServers servers (before ++ after).
Proof.
  intros Hnone. unfold validServers. f_equal.
  apply filter_ext_in. intros r Hr. unfold some.
  rewrite !existsb_app. simpl. now rewrite (Hnone r Hr).
Qed.

Lemma listContinueServers_flags (servers : list Registry.Server) (disk : Disk)
      (x : string) :
  ~ In (x, false) (inspect (listContinueServers servers disk)).
Proof.
  destruct (continue_config disk) as [code|[| |config]] eqn:Hfile.
  - rewrite (inspect_silent _ _ (listContinueServers_rejects servers disk code Hfile)).
    intros [].
  - rewrite (inspect_silent _ _ (listContinueServers_malformed servers disk Hfile)).
    intros [].
  - rewrite (inspect_silent _ _ (listContinueServers_null servers disk Hfile)).
    intros [].
  - rewrite (inspect_listContinueServers servers disk config Hfile), in_tagged.
    intros [_ H]. discriminate H.
Qed.

(** C5. References without a match are handled differently by the two
    inspectors.  Claude: an install key that no registry server carries is
    still listed, as unknown.  Continue: a reference that matches no registry
    server leaves no trace, the inspector behaves as if the reference were
    not in the file, and nothing is ever listed as unknown. *)
Theorem unmatched_references (servers : list Registry.Server) :
  (forall disk config x,
      claude_desktop_config disk = Resolves (Wellformed config) ->
      In x (Object_keys (orElse (Claude.mcpServers config) [])) ->
      (forall r, In r servers -> Registry.id r <> x) ->
      In (x, false) (inspect (listClaudeServers servers disk)))
  /\ (forall disk disk' config config' before ref after,
        continue_config disk = Resolves (Wellformed config) ->
        continue_config disk' = Resolves (Wellformed config') ->
        continueInstalled config = before ++ ref :: after ->
        continueInstalled config' = before ++ after ->
        (forall r, In r servers -> structuralMatch r ref = false) ->
        forall w, listContinueServers servers disk w
                  = listContinueServers servers disk' w)
  /\ (forall disk x, ~ In (x, false) (inspect (listContinueServers servers disk))).
Proof.
  split; [|split].
  - intros disk config x Hfile Hin Hnone.
    apply (listed_unknown servers disk config Hfile). split; [exact Hin|].
    intros [r [Hr Hid]]. exact (Hnone r Hr Hid).
  - intros disk disk' config config' before ref after Hfile Hfile' Hrefs Hrefs' Hnone.
    apply (listContinueServers_ext servers disk disk' config config' Hfile Hfile').
    rewrite Hrefs, Hrefs'. now apply validServers_unmatched.
  - apply listContinueServers_flags.
Qed.

Lemma unmatched_references_witness :
  In ("ghost", false)
     (inspect (listClaudeServers [Samples.fs] (Samples.diskOf ["fs"; "ghost"] [])))
  /\ listContinueServers [Samples.fs]
       (Samples.diskOf [] [Samples.refOther; Samples.refFs]) start
     = listContinueServers [Samples.fs] (Samples.diskOf [] [Samples.refFs]) start.
Proof.
  split.
  - apply (proj1 (unmatched_references [Samples.fs])
             (Samples.diskOf ["fs"; "ghost"] [])
             (Samples.claudeConfig ["fs"; "ghost"]) "ghost" eq_refl).
    + right; left; reflexivity.
    + intros r [<-|[]]. discriminate.
  - apply (proj1 (proj2 (unmatched_references [Samples.fs]))
             (Samples.diskOf [] [Samples.refOther; Samples.refFs])
             (Samples.diskOf [] [Samples.refFs])
             (Samples.continueConfig [Samples.refOther; Samples.refFs])
             (Samples.continueConfig [Samples.refFs])
             [] Samples.refOther [Samples.refFs]
             eq_refl eq_refl eq_refl eq_refl).
    intros r [<-|[]]. reflexivity.
Defined.

(** ** A client that is not installed *)

(** C6. When the configuration file of a client does not exist
    ([fs.readFile] rejects with code ENOENT), its inspector returns [false],
    prints nothing and does not throw. *)
Theorem absent_file (servers : list Registry.Server) (disk : Disk) (w : World) :
  (claude_desktop_config disk = Rejects "ENOENT" ->
   listClaudeServers servers disk w = (Returns false, w))
  /\ (continue_config disk = Rejects "ENOENT" ->
      listContinueServers servers disk w = (Returns false, w)).
Proof.
  split; intros Hfile.
  - now rewrite (listClaudeServers_rejects servers disk _ Hfile).
  - now rewrite (listContinueServers_rejects servers disk _ Hfile).
Qed.

Lemma absent_file_witness :
  listClaudeServers [Samples.fs] Samples.diskEmpty start = (Returns false, start)
  /\ listContinueServers [Samples.fs] Samples.diskEmpty start = (Returns false, start).
Proof.
  split.
  - apply (proj1 (absent_file [Samples.fs] Samples.diskEmpty start)). reflexivity.
  - apply (proj2 (absent_file [Samples.fs] Samples.diskEmpty start)). reflexivity.
Defined.

(** ** The inspectors as a whole *)

Lemma partition_nil {A} (f : A -> bool) (l : list A) :
  filter f l = [] -> filter (fun x => negb (f x)) l = [] -> l = [].
Proof.
  destruct l as [|x l]; [reflexivity|]. simpl.
  destruct (f x); simpl; intros H1 H2; discriminate.
Qed.

Lemma silent_settled (inspector : Eff bool) (c : Completion bool) :
  c <> Returns true -> (forall w, inspector w = (c, w)) -> Settled inspector.
Proof.
  intros Hc Hrun. exists c, []. split; [|split].
  - intros w. now rewrite emit_nil.
  - split; [intros H; contradiction | intros H; now elim H].
  - reflexivity.
Qed.

Lemma listClaudeServers_settled (servers : list Registry.Server) (disk : Disk) :
  Settled (listClaudeServers servers disk).
Proof.
  destruct (claude_desktop_config disk) as [code|[| |config]] eqn:Hfile.
  - apply (silent_settled _ (if (code =? "ENOENT")%string
                              then Returns false
                              else Throws (SystemError code))).
    + destruct (code =? "ENOENT")%string; discriminate.
    + apply listClaudeServers_rejects, Hfile.
  - apply (silent_settled _ (Throws SyntaxError)); [discriminate|].
    apply listClaudeServers_malformed, Hfile.
  - apply (silent_settled _ (Throws TypeError)); [discriminate|].
    apply listClaudeServers_null, Hfile.
  - destruct (listClaudeServers_wellformed servers disk config Hfile)
      as [ls [Hrun [Hentries Hnil]]].
    eexists; exists ls. split; [exact Hrun|].
    destruct (Object_keys (orElse (Claude.mcpServers config) [])) as [|k ks] eqn:Hkeys.
    + rewrite (Hnil eq_refl). split; [|reflexivity].
      split; [discriminate | intros H; now elim H].
    + split; [|intros H; now elim H]. split; [|reflexivity].
      intros _ Hempty. rewrite Hentries in Hempty.
      apply app_eq_nil in Hempty. destruct Hempty as [H1 H2].
      apply map_eq_nil in H1. apply map_eq_nil in H2.
      unfold registeredServers in H1. unfold unknownServers in H2.
      discriminate (partition_nil _ _ H1 H2).
Qed.

Lemma listContinueServers_settled (servers : list Registry.Server) (disk : Disk) :
  Settled (listContinueServers servers disk).
Proof.
  destruct (continue_config disk) as [code|[| |config]] eqn:Hfile.
  - apply (silent_settled _ (if (code =? "ENOENT")%string
                              then Returns false
                              else Throws (SystemError code))).
    + destruct (code =? "ENOENT")%string; discriminate.
    + apply listContinueServers_rejects, Hfile.
  - apply (silent_settled _ (Throws SyntaxError)); [discriminate|].
    apply listContinueServers_malformed, Hfile.
  - apply (silent_settled _ (Throws TypeError)); [discriminate|].
    apply listContinueServers_null, Hfile.
  - destruct (listContinueServers_wellformed servers disk config Hfile)
      as [ls [Hrun [Hentries Hnil]]].
    eexists; exists ls. split; [exact Hrun|].
    destruct (validServers servers (continueInstalled config)) as [|k ks] eqn:Hvalid.
    + rewrite (Hnil eq_refl). split; [|reflexivity].
      split; [discriminate | intros H; now elim H].
    + split; [|intros H; now elim H]. split; [|reflexivity].
      intros _ Hempty. rewrite Hentries in Hempty. discriminate Hempty.
Qed.

(** ** The aggregator *)

Section Run.

Variable servers : list Registry.Server.
Variable disk : Disk.

Lemma run_claude (c : Completion bool) (ls : list LogLine) :
  (forall w, listClaudeServers servers disk w = (c, emit w ls)) ->
  forall w,
    run servers disk (mkFlags (Some claude)) w
    = match c with
      | Returns found =>
          (Returns tt,
           mkWorld found
                   (stdout w ++ ls
                    ++ (if found then [] else [NothingOn claude]) ++ [Empty]))
      | Throws error => (Throws error, mkWorld false (stdout w ++ ls))
      end.
Proof.
  intros Hrun w. unfold run, bind. simpl. rewrite Hrun.
  destruct c as [[|]|error]; unfold trackServers, log, ret, emit; simpl;
    rewrite <- ?app_assoc; reflexivity.
Qed.

Lemma run_continue (c : Completion bool) (ls : list LogLine) :
  (forall w, listContinueServers servers disk w = (c, emit w ls)) ->
  forall w,
    run servers disk (mkFlags (Some continue)) w
    = match c with
      | Returns found =>
          (Returns tt,
           mkWorld found
                   (stdout w ++ ls
                    ++ (if found then [] else [NothingOn continue]) ++ [Empty]))
      | Throws error => (Throws error, mkWorld false (stdout w ++ ls))
      end.
Proof.
  intros Hrun w. unfold run, bind. simpl. rewrite Hrun.
  destruct c as [[|]|error]; unfold trackServers, log, ret, emit; simpl;
    rewrite <- ?app_assoc; reflexivity.
Qed.

Lemma run_all (c1 c2 : Completion bool) (ls1 ls2 : list LogLine) :
  (forall w, listClaudeServers servers disk w = (c1, emit w ls1)) ->
  (forall w, listContinueServers servers disk w = (c2, emit w ls2)) ->
  forall w,
    run servers disk (mkFlags None) w
    = (Returns tt,
       mkWorld (caught c1 || caught c2)
               (stdout w ++ ls1 ++ ls2
                ++ (if (caught c1 || caught c2)%bool then [] else [Nothing])
                ++ [Empty])).
Proof.
  intros H1 H2 w. unfold run, bind, tryCatch. simpl. rewrite H1.
  destruct c1 as [[|]|e1]; unfold trackServers, ret; simpl; rewrite H2;
    destruct c2 as [[|]|e2]; unfold log, emit; simpl;
    rewrite <- ?app_assoc; reflexivity.
Qed.

End Run.

(** C7. With a client selected, a configuration file of that client which is
    there but cannot be read (a system error other than ENOENT) or is not
    JSON makes the command fail: [run] ends by throwing the error of the
    inspector, having printed nothing. *)
Theorem selected_client_failure
        (servers : list Registry.Server) (disk : Disk) (w : World) :
  (forall code,
      code <> "ENOENT" ->
      claude_desktop_config disk = Rejects code ->
      run servers disk (mkFlags (Some claude)) w
      = (Throws (SystemError code), mkWorld false (stdout w)))
  /\ (claude_desktop_config disk = Resolves Malformed ->
      run servers disk (mkFlags (Some claude)) w
      = (Throws SyntaxError, mkWorld false (stdout w)))
  /\ (forall code,
        code <> "ENOENT" ->
        continue_config disk = Rejects code ->
        run servers disk (mkFlags (Some continue)) w
        = (Throws (SystemError code), mkWorld false (stdout w)))
  /\ (continue_config disk = Resolves Malformed ->
      run servers disk (mkFlags (Some continue)) w
      = (Throws SyntaxError, mkWorld false (stdout w))).
Proof.
  split; [|split; [|split]].
  - intros code Hcode Hfile.
    rewrite (run_claude servers disk (Throws (SystemError code)) []).
    + now rewrite app_nil_r.
    + intros w'. rewrite emit_nil.
      rewrite (listClaudeServers_rejects servers disk code Hfile).
      apply String.eqb_neq in Hcode. now rewrite Hcode.
  - intros Hfile.
    rewrite (run_claude servers disk (Throws SyntaxError) []).
    + now rewrite app_nil_r.
    + intros w'. rewrite emit_nil.
      apply (listClaudeServers_malformed servers disk Hfile).
  - intros code Hcode Hfile.
    rewrite (run_continue servers disk (Throws (SystemError code)) []).
    + now rewrite app_nil_r.
    + intros w'. rewrite emit_nil.
      rewrite (listContinueServers_rejects servers disk code Hfile).
      apply String.eqb_neq in Hcode. now rewrite Hcode.
  - intros Hfile.
    rewrite (run_continue servers disk (Throws SyntaxError) []).
    + now rewrite app_nil_r.
    + intros w'. rewrite emit_nil.
      apply (listContinueServers_malformed servers disk Hfile).
Qed.

Lemma selected_client_failure_witness :
  run [Samples.fs] (Samples.diskClaudeCorrupt [Samples.refFs])
      (mkFlags (Some claude)) start
  = (Throws SyntaxError, start)
  /\ run [Samples.fs] (mkDisk (Rejects "ENOENT") (Rejects "EACCES"))
         (mkFlags (Some continue)) start
     = (Throws (SystemError "EACCES"), start).
Proof.
  split.
  - apply (proj1 (proj2 (selected_client_failure
                           [Samples.fs]
                           (Samples.diskClaudeCorrupt [Samples.refFs]) start))).
    reflexivity.
  - apply (proj1 (proj2 (proj2 (selected_client_failure
                                  [Samples.fs]
                                  (mkDisk (Rejects "ENOENT") (Rejects "EACCES"))
                                  start)))
             "EACCES").
    + discriminate.
    + reflexivity.
Defined.

(** C8. With no client selected the command never fails.  When one inspector
    throws, that client counts as having nothing: the output is what the
    other inspector prints followed by the closing lines, and [foundServers]
    is what the other inspector returned. *)
Theorem all_clients_best_effort
        (servers : list Registry.Server) (disk : Disk) (w : World) :
  let after := run servers disk (mkFlags None) w in
  let closing :=
    (if foundServers (snd after) then [] else [Nothing]) ++ [Empty] in
  fst after = Returns tt
  /\ (forall error,
        fst (listClaudeServers servers disk w) = Throws error ->
        stdout (snd after)
        = stdout (snd (listContinueServers servers disk w)) ++ closing
        /\ (foundServers (snd after) = true
            <-> fst (listContinueServers servers disk w) = Returns true))
  /\ (forall error,
        fst (listContinueServers servers disk w) = Throws error ->
        stdout (snd after)
        = stdout (snd (listClaudeServers servers disk w)) ++ closing
        /\ (foundServers (snd after) = true
            <-> fst (listClaudeServers servers disk w) = Returns true)).
Proof.
  destruct (listClaudeServers_settled servers disk) as [c1 [ls1 [H1 [_ N1]]]].
  destruct (listContinueServers_settled servers disk) as [c2 [ls2 [H2 [_ N2]]]].
  cbv zeta. rewrite (run_all servers disk c1 c2 ls1 ls2 H1 H2), H1, H2. simpl.
  split; [reflexivity|split].
  - intros error ->. rewrite N1 by discriminate. simpl.
    rewrite <- app_assoc. split; [reflexivity|].
    destruct c2 as [[|]|e2]; simpl; split; intros H; try reflexivity;
      discriminate H.
  - intros error ->. rewrite N2 by discriminate. simpl.
    rewrite orb_false_r, <- app_assoc. split; [reflexivity|].
    destruct c1 as [[|]|e1]; simpl; split; intros H; try reflexivity;
      discriminate H.
Qed.

Lemma all_clients_best_effort_witness :
  fst (listClaudeServers [Samples.fs]
         (Samples.diskClaudeCorrupt [Samples.refFs]) start) = Throws SyntaxError
  /\ stdout (snd (run [Samples.fs] (Samples.diskClaudeCorrupt [Samples.refFs])
                      (mkFlags None) start))
     = [Heading continue; Linked Corner "fs"] ++ [Empty].
Proof.
  split; [reflexivity|].
  exact (proj1 (proj1 (proj2 (all_clients_best_effort
                                [Samples.fs]
                                (Samples.diskClaudeCorrupt [Samples.refFs])
                                start))
                      SyntaxError eq_refl)).
Defined.

(** C9. [foundServers] ends [true] exactly when an inspector that was called
    returned [true], and an inspector returns [true] exactly when it listed
    at least one entry. *)
Theorem foundAny_iff (servers : list Registry.Server) (disk : Disk) (w : World) :
  (foundServers (snd (run servers disk (mkFlags (Some claude)) w)) = true
   <-> fst (listClaudeServers servers disk w) = Returns true)
  /\ (foundServers (snd (run servers disk (mkFlags (Some continue)) w)) = true
      <-> fst (listContinueServers servers disk w) = Returns true)
  /\ (foundServers (snd (run servers disk (mkFlags None) w)) = true
      <-> fst (listClaudeServers servers disk w) = Returns true
          \/ fst (listContinueServers servers disk w) = Returns true)
  /\ (fst (listClaudeServers servers disk w) = Returns true
      <-> inspect (listClaudeServers servers disk) <> [])
  /\ (fst (listContinueServers servers disk w) = Returns true
      <-> inspect (listContinueServers servers disk) <> []).
Proof.
  destruct (listClaudeServers_settled servers disk) as [c1 [ls1 [H1 [E1 _]]]].
  destruct (listContinueServers_settled servers disk) as [c2 [ls2 [H2 [E2 _]]]].
  rewrite (run_claude servers disk c1 ls1 H1).
  rewrite (run_continue servers disk c2 ls2 H2).
  rewrite (run_all servers disk c1 c2 ls1 ls2 H1 H2).
  rewrite (inspect_emits _ _ _ H1), (inspect_emits _ _ _ H2), H1, H2. simpl.
  repeat split; try (apply E1); try (apply E2).
  - destruct c1 as [[|]|e1]; simpl; intros H; try reflexivity; discriminate H.
  - intros ->. reflexivity.
  - destruct c2 as [[|]|e2]; simpl; intros H; try reflexivity; discriminate H.
  - intros ->. reflexivity.
  - destruct c1 as [[|]|e1], c2 as [[|]|e2]; simpl; intros H;
      try (left; reflexivity); try (right; reflexivity); discriminate H.
  - intros [-> | ->]; simpl; [reflexivity | apply orb_true_r].
Qed.

Lemma foundAny_iff_witness :
  foundServers (snd (run [Samples.fs] (Samples.diskClaudeCorrupt [Samples.refFs])
                         (mkFlags None) start)) = true.
Proof.
  apply (proj2 (proj1 (proj2 (proj2 (foundAny_iff
                                       [Samples.fs]
                                       (Samples.diskClaudeCorrupt [Samples.refFs])
                                       start))))).
  right. reflexivity.
Defined.

(** ** Order and multiplicity of the entries of Continue *)

Lemma existsb_Permutation {A} (f : A -> bool) (l l' : list A) :
  Permutation l l' -> existsb f l = existsb f l'.
Proof.
  induction 1 as [|x l l' _ IH|x y l|l l' l'' _ IH1 _ IH2]; simpl.
  - reflexivity.
  - now rewrite IH.
  - destruct (f x), (f y); reflexivity.
  - now rewrite IH1.
Qed.

Lemma validServers_Permutation (servers : list Registry.Server)
      (refs refs' : list Continue.Installed) :
  Permutation refs refs' -> validServers servers refs = validServers servers refs'.
Proof.
  intros Hperm. unfold validServers. f_equal. apply filter_ext.
  intros r. unfold some. now apply existsb_Permutation.
Qed.

Lemma validServers_nil (servers : list Registry.Server) :
  validServers servers [] = [].
Proof.
  unfold validServers. induction servers as [|r rs IH]; simpl; [reflexivity|exact IH].
Qed.

Lemma validServers_single (servers : list Registry.Server) (ref : Continue.Installed) :
  validServers servers [ref]
  = map Registry.id (filter (fun r => structuralMatch r ref) servers).
Proof.
  unfold validServers. f_equal. apply filter_ext. intros r. simpl.
  apply orb_false_r.
Qed.

Lemma tagged_ids (ids : list string) :
  map fst (map (fun id : string => (id, true)) ids) = ids.
Proof. rewrite map_map. simpl. apply map_id. Qed.

(** Whatever the file, Continue's entries are the valid servers of some list
    of references. *)
Lemma inspect_listContinueServers_any (servers : list Registry.Server) (disk : Disk) :
  exists refs,
    inspect (listContinueServers servers disk)
    = map (fun id => (id, true)) (validServers servers refs).
Proof.
  destruct (continue_config disk) as [code|[| |config]] eqn:Hfile.
  - exists []. rewrite validServers_nil.
    apply (inspect_silent _ _ (listContinueServers_rejects servers disk code Hfile)).
  - exists []. rewrite validServers_nil.
    apply (inspect_silent _ _ (listContinueServers_malformed servers disk Hfile)).
  - exists []. rewrite validServers_nil.
    apply (inspect_silent _ _ (listContinueServers_null servers disk Hfile)).
  - exists (continueInstalled config).
    apply (inspect_listContinueServers servers disk config Hfile).
Qed.

Lemma count_occ_filter_ids (f : Registry.Server -> bool)
      (servers : list Registry.Server) (x : string) :
  count_occ string_dec (map Registry.id (filter f servers)) x
  <= count_occ string_dec (map Registry.id servers) x.
Proof.
  induction servers as [|r rs IH]; simpl; [lia|].
  destruct (f r); simpl; destruct (string_dec (Registry.id r) x); lia.
Qed.

Lemma length_filter_le {A} (f : A -> bool) (l : list A) :
  List.length (filter f l) <= List.length l.
Proof.
  induction l as [|x l IH]; simpl; [lia|]. destruct (f x); simpl; lia.
Qed.

(** C3, as amended.  Claude: the keys that are registry identifiers come
    first, in the order of the keys, and the other keys follow, in the order
    of the keys.  Continue: the entries are the registry servers matched by
    some reference, in the order of the registry; the order of the references
    in the file has no effect on what the inspector does. *)
Theorem listing_order (servers : list Registry.Server) :
  (forall disk config,
      claude_desktop_config disk = Resolves (Wellformed config) ->
      let keys := Object_keys (orElse (Claude.mcpServers config) []) in
      let known id := existsb (fun s => (Registry.id s =? id)%string) servers in
      inspect (listClaudeServers servers disk)
      = map (fun id => (id, true)) (filter known keys)
        ++ map (fun id => (id, false)) (filter (fun id => negb (known id)) keys))
  /\ (forall disk config,
        continue_config disk = Resolves (Wellformed config) ->
        inspect (listContinueServers servers disk)
        = map (fun r => (Registry.id r, true))
              (filter (fun r => existsb (structuralMatch r) (continueInstalled config))
                      servers))
  /\ (forall disk disk' config config',
        continue_config disk = Resolves (Wellformed config) ->
        continue_config disk' = Resolves (Wellformed config') ->
        Permutation (continueInstalled config) (continueInstalled config') ->
        forall w, listContinueServers servers disk w
                  = listContinueServers servers disk' w).
Proof.
  split; [|split].
  - intros disk config Hfile keys known.
    apply (inspect_listClaudeServers servers disk config Hfile).
  - intros disk config Hfile.
    rewrite (inspect_listContinueServers servers disk config Hfile).
    unfold validServers. rewrite map_map. reflexivity.
  - intros disk disk' config config' Hfile Hfile' Hperm.
    apply (listContinueServers_ext servers disk disk' config config' Hfile Hfile').
    now apply validServers_Permutation.
Qed.

Lemma listing_order_witness :
  listContinueServers [Samples.fs; Samples.git]
    (Samples.diskOf [] [Samples.refGit; Samples.refFs]) start
  = listContinueServers [Samples.fs; Samples.git]
      (Samples.diskOf [] [Samples.refFs; Samples.refGit]) start.
Proof.
  apply (proj2 (proj2 (listing_order [Samples.fs; Samples.git]))
           (Samples.diskOf [] [Samples.refGit; Samples.refFs])
           (Samples.diskOf [] [Samples.refFs; Samples.refGit])
           (Samples.continueConfig [Samples.refGit; Samples.refFs])
           (Samples.continueConfig [Samples.refFs; Samples.refGit])
           eq_refl eq_refl).
  apply perm_swap.
Defined.

(** C3 as stated fails for Continue: the file names the git server before the
    filesystem server, each reference matches one registry server only, and
    the inspector lists the filesystem server first. *)
Lemma listing_order_counterexample :
  Spec.structuralEntries [Samples.fs; Samples.git] [Samples.refGit; Samples.refFs]
  = [("git", true); ("fs", true)]
  /\ inspect (listContinueServers [Samples.fs; Samples.git]
                (Samples.diskOf [] [Samples.refGit; Samples.refFs]))
     = [("fs", true); ("git", true)]
  /\ inspect (listContinueServers [Samples.fs; Samples.git]
                (Samples.diskOf [] [Samples.refGit; Samples.refFs]))
     <> Spec.structuralEntries [Samples.fs; Samples.git]
                               [Samples.refGit; Samples.refFs].
Proof.
  split; [reflexivity|]. split; [reflexivity|]. discriminate.
Qed.

Lemma filter_filter_implied {A} (f g : A -> bool) (l : list A) :
  (forall x, f x = true -> g x = true) -> filter f (filter g l) = filter f l.
Proof.
  intros Himp. induction l as [|x l IH]; simpl; [reflexivity|].
  destruct (g x) eqn:Hg; simpl.
  - now rewrite IH.
  - destruct (f x) eqn:Hf; [|exact IH].
    rewrite (Himp x Hf) in Hg. discriminate Hg.
Qed.

(** C4, as amended.  Whatever other references the file holds, the registry
    servers that an installed reference matches are all listed, once for each
    registry entry and in the order of the registry: the listing is the
    registry filtered by "some reference matches", and the listed servers
    that match the reference are all the registry servers that match it.  A
    file with that reference alone lists exactly them. *)
Theorem every_match_listed
        (servers : list Registry.Server) (disk : Disk)
        (config : Continue.Config) (ref : Continue.Installed) :
  continue_config disk = Resolves (Wellformed config) ->
  In ref (continueInstalled config) ->
  let listed :=
    filter (fun r => existsb (structuralMatch r) (continueInstalled config))
           servers in
  inspect (listContinueServers servers disk)
  = map (fun r => (Registry.id r, true)) listed
  /\ filter (fun r => structuralMatch r ref) listed
     = filter (fun r => structuralMatch r ref) servers
  /\ (continueInstalled config = [ref] ->
      inspect (listContinueServers servers disk)
      = map (fun r => (Registry.id r, true))
            (filter (fun r => structuralMatch r ref) servers)).
Proof.
  intros Hfile Hin listed.
  assert (Hout : inspect (listContinueServers servers disk)
                 = map (fun r => (Registry.id r, true)) listed).
  { rewrite (inspect_listContinueServers servers disk config Hfile).
    unfold validServers. now rewrite map_map. }
  split; [exact Hout|]. split.
  - apply filter_filter_implied. intros r Hmatch.
    apply existsb_exists. now exists ref.
  - intros Hrefs.
    rewrite (inspect_listContinueServers servers disk config Hfile), Hrefs.
    rewrite validServers_single, map_map. reflexivity.
Qed.

Lemma every_match_listed_witness :
  inspect (listContinueServers [Samples.npxAny; Samples.git; Samples.fs]
             (Samples.diskOf [] [Samples.refGit; Samples.refFsPlain]))
  = [("npx-any", true); ("git", true); ("fs", true)]
  /\ filter (fun r => structuralMatch r Samples.refFsPlain)
            [Samples.npxAny; Samples.git; Samples.fs]
     = [Samples.npxAny; Samples.fs].
Proof.
  pose proof (every_match_listed
                [Samples.npxAny; Samples.git; Samples.fs]
                (Samples.diskOf [] [Samples.refGit; Samples.refFsPlain])
                (Samples.continueConfig [Samples.refGit; Samples.refFsPlain])
                Samples.refFsPlain eq_refl (or_intror (or_introl eq_refl)))
    as [Hout [Hall _]].
  split; [exact Hout | exact Hall].
Defined.

(** C4 as stated fails: one reference, two registry servers that match it,
    and two entries instead of the one of the first match. *)
Lemma first_match_wins_counterexample :
  Spec.firstMatch [Samples.npxAny; Samples.fs] Samples.refFsPlain
  = Some Samples.npxAny
  /\ Spec.structuralEntries [Samples.npxAny; Samples.fs] [Samples.refFsPlain]
     = [("npx-any", true)]
  /\ inspect (listContinueServers [Samples.npxAny; Samples.fs]
                (Samples.diskOf [] [Samples.refFsPlain]))
     = [("npx-any", true); ("fs", true)]
  /\ inspect (listContinueServers [Samples.npxAny; Samples.fs]
                (Samples.diskOf [] [Samples.refFsPlain]))
     <> Spec.structuralEntries [Samples.npxAny; Samples.fs] [Samples.refFsPlain].
Proof.
  split; [reflexivity|]. split; [reflexivity|]. split; [reflexivity|].
  discriminate.
Qed.

(** C10. In the listing of Continue an identifier appears no more often than
    in the registry, however many references match its server: with distinct
    registry identifiers every identifier is listed at most once, and there
    are never more entries than registry servers. *)
Theorem structural_entries_collapse (servers : list Registry.Server) (disk : Disk) :
  let out := inspect (listContinueServers servers disk) in
  List.length out <= List.length servers
  /\ (forall x, count_occ string_dec (map fst out) x
                <= count_occ string_dec (map Registry.id servers) x)
  /\ (NoDup (map Registry.id servers) -> NoDup (map fst out)).
Proof.
  destruct (inspect_listContinueServers_any servers disk) as [refs Hout].
  cbv zeta. rewrite Hout, tagged_ids. unfold validServers.
  split; [|split].
  - rewrite !length_map. apply length_filter_le.
  - intros x. apply count_occ_filter_ids.
  - intros Hnodup. apply (NoDup_count_occ string_dec). intros x.
    apply Nat.le_trans with (count_occ string_dec (map Registry.id servers) x).
    + apply count_occ_filter_ids.
    + now apply (NoDup_count_occ string_dec).
Qed.

Lemma structural_entries_collapse_witness :
  inspect (listContinueServers [Samples.fs; Samples.git]
             (Samples.diskOf [] [Samples.refFs; Samples.refFsPlain; Samples.refFs]))
  = [("fs", true)]
  /\ NoDup (map fst
              (inspect (listContinueServers [Samples.fs; Samples.git]
                 (Samples.diskOf []
                    [Samples.refFs; Samples.refFsPlain; Samples.refFs])))).
Proof.
  split; [reflexivity|].
  apply (proj2 (proj2 (structural_entries_collapse
                         [Samples.fs; Samples.git]
                         (Samples.diskOf []
                            [Samples.refFs; Samples.refFsPlain; Samples.refFs])))).
  simpl. constructor.
  - intros [H|[]]. discriminate H.
  - constructor; [intros []|constructor].
Defined.

(** ** The scenarios of the specification *)

(** Claude lists [fs] and [ghost]; the registry has [fs] only. *)
Example scenario_1 :
  run [Samples.fs] (Samples.diskOf ["fs"; "ghost"] []) (mkFlags (Some claude)) start
  = (Returns tt,
     mkWorld true [Heading claude; Linked Tee "fs"; Unknown Corner "ghost"; Empty]).
Proof. reflexivity. Qed.

(** Claude's file is missing. *)
Example scenario_2 :
  run [Samples.fs] Samples.diskEmpty (mkFlags (Some claude)) start
  = (Returns tt, mkWorld false [NothingOn claude; Empty]).
Proof. reflexivity. Qed.

(** Continue runs the filesystem server with one more flag. *)
Example scenario_3 :
  inspect (listContinueServers [Samples.fs] (Samples.diskOf [] [Samples.refFs]))
  = [("fs", true)].
Proof. reflexivity. Qed.

(** Same command, another first argument. *)
Example scenario_4 :
  listContinueServers [Samples.fs; Samples.npxAny; Samples.git]
    (Samples.diskOf [] [Samples.refOther]) start
  = (Returns false, start).
Proof. reflexivity. Qed.

(** No client selected, Claude's file is not JSON. *)
Example scenario_5 :
  run [Samples.fs] (Samples.diskClaudeCorrupt [Samples.refFs]) (mkFlags None) start
  = (Returns tt, mkWorld true [Heading continue; Linked Corner "fs"; Empty]).
Proof. reflexivity. Qed.

(** Claude selected, Claude's file is not JSON. *)
Example scenario_6 :
  run [Samples.fs] (Samples.diskClaudeCorrupt [Samples.refFs])
      (mkFlags (Some claude)) start
  = (Throws SyntaxError, start).
Proof. reflexivity. Qed.

(** * Further properties of the command *)

(** ** Claude lists every key once *)

Lemma partition_Permutation {A} (f : A -> bool) (l : list A) :
  Permutation (filter f l ++ filter (fun x => negb (f x)) l) l.
Proof.
  induction l as [|x l IH]; simpl; [constructor|].
  destruct (f x); simpl.
  - now constructor.
  - apply Permutation_sym, Permutation_cons_app, Permutation_sym, IH.
Qed.

(** X1. The identifiers Claude's inspector lists are the keys of
    [mcpServers], each as often as it occurs among the keys: no key is
    dropped and none is listed twice, whatever the registry. *)
Theorem claude_lists_every_key
        (servers : list Registry.Server) (disk : Disk) (config : Claude.Config) :
  claude_desktop_config disk = Resolves (Wellformed config) ->
  Permutation (map fst (inspect (listClaudeServers servers disk)))
              (Object_keys (orElse (Claude.mcpServers config) [])).
Proof.
  intros Hfile.
  rewrite (inspect_listClaudeServers servers disk config Hfile).
  rewrite map_app, !map_map. simpl. rewrite !map_id.
  apply partition_Permutation.
Qed.

Lemma claude_lists_every_key_witness :
  Permutation
    (map fst (inspect (listClaudeServers [Samples.fs]
                         (Samples.diskOf ["ghost"; "fs"; "other"] []))))
    ["ghost"; "fs"; "other"].
Proof.
  exact (claude_lists_every_key [Samples.fs]
           (Samples.diskOf ["ghost"; "fs"; "other"] [])
           (Samples.claudeConfig ["ghost"; "fs"; "other"]) eq_refl).
Defined.

(** ** What Continue lists *)

Lemma listContinueServers_In
      (servers : list Registry.Server) (disk : Disk)
      (config : Continue.Config) (e : string * bool) :
  continue_config disk = Resolves (Wellformed config) ->
  In e (inspect (listContinueServers servers disk))
  <-> exists r ref,
        In r servers /\ In ref (continueInstalled config)
        /\ structuralMatch r ref = true /\ e = (Registry.id r, true).
Proof.
  intros Hfile.
  rewrite (inspect_listContinueServers servers disk config Hfile).
  unfold validServers. rewrite map_map, in_map_iff. split.
  - intros [r [He Hr]]. apply filter_In in Hr. destruct Hr as [Hr Hsome].
    unfold some in Hsome. apply existsb_exists in Hsome.
    destruct Hsome as [ref [Href Hmatch]].
    exists r, ref. repeat split; trivial. now symmetry.
  - intros [r [ref [Hr [Href [Hmatch He]]]]]. exists r. split; [now symmetry|].
    apply filter_In. split; [exact Hr|].
    unfold some. apply existsb_exists. now exists ref.
Qed.

(** X2. An entry of Continue's inspector is the identifier of a registry
    server that some reference of the file matches, and every such
    identifier is an entry. *)
Theorem continue_entries_iff
        (servers : list Registry.Server) (disk : Disk)
        (config : Continue.Config) (e : string * bool) :
  continue_config disk = Resolves (Wellformed config) ->
  In e (inspect (listContinueServers servers disk))
  <-> exists r ref,
        In r servers /\ In ref (continueInstalled config)
        /\ structuralMatch r ref = true /\ e = (Registry.id r, true).
Proof.
  intros Hfile.
  rewrite (inspect_listContinueServers servers disk config Hfile).
  unfold validServers. rewrite map_map, in_map_iff. split.
  - intros [r [He Hr]]. apply filter_In in Hr. destruct Hr as [Hr Hsome].
    apply existsb_exists in Hsome. destruct Hsome as [ref [Href Hmatch]].
    exists r, ref. repeat split; trivial. now symmetry.
  - intros [r [ref [Hr [Href [Hmatch He]]]]]. exists r. split; [now symmetry|].
    apply filter_In. split; [exact Hr|].
    apply existsb_exists. now exists ref.
Qed.

Lemma continue_entries_iff_witness :
  In ("fs", true)
     (inspect (listContinueServers [Samples.git; Samples.fs]
                 (Samples.diskOf [] [Samples.refOther; Samples.refFs]))).
Proof.
  apply (proj2 (continue_entries_iff
                  [Samples.git; Samples.fs]
                  (Samples.diskOf [] [Samples.refOther; Samples.refFs])
                  (Samples.continueConfig [Samples.refOther; Samples.refFs])
                  ("fs", true) eq_refl)).
  exists Samples.fs, Samples.refFs. repeat split.
  - right; left; reflexivity.
  - right; left; reflexivity.
Defined.

(** ** Missing fields and an empty registry *)

Lemma listClaudeServers_no_keys (servers : list Registry.Server) (disk : Disk)
      (config : Claude.Config) :
  claude_desktop_config disk = Resolves (Wellformed config) ->
  Object_keys (orElse (Claude.mcpServers config) []) = [] ->
  forall w, listClaudeServers servers disk w = (Returns false, w).
Proof.
  intros Hfile Hkeys w.
  destruct (listClaudeServers_wellformed servers disk config Hfile)
    as [ls [Hrun [_ Hnil]]].
  rewrite Hrun, (Hnil Hkeys), Hkeys. now rewrite emit_nil.
Qed.

Lemma listContinueServers_no_valid (servers : list Registry.Server) (disk : Disk)
      (config : Continue.Config) :
  continue_config disk = Resolves (Wellformed config) ->
  validServers servers (continueInstalled config) = [] ->
  forall w, listContinueServers servers disk w = (Returns false, w).
Proof.
  intros Hfile Hvalid w.
  destruct (listContinueServers_wellformed servers disk config Hfile)
    as [ls [Hrun [_ Hnil]]].
  rewrite Hrun, (Hnil Hvalid), Hvalid. now rewrite emit_nil.
Qed.

(** X3. A configuration that parses to a value other than [null] and has
    not the field the inspector looks for, or has it empty, is a client with
    nothing installed: the inspector returns [false], prints nothing and does
    not throw.  For Claude the field is [mcpServers]; for Continue it is
    [experimental] and, inside it, [modelContextProtocolServers].  A file
    that holds [null] is another matter: reading the field throws a
    TypeError, which the inspector throws again, having printed nothing. *)
Theorem missing_fields (servers : list Registry.Server) (disk : Disk) (w : World) :
  (forall config,
      claude_desktop_config disk = Resolves (Wellformed config) ->
      Claude.mcpServers config = None \/ Claude.mcpServers config = Some [] ->
      listClaudeServers servers disk w = (Returns false, w))
  /\ (forall config,
        continue_config disk = Resolves (Wellformed config) ->
        Continue.experimental config = None
        \/ Continue.experimental config = Some (Continue.mkExperimental None)
        \/ Continue.experimental config = Some (Continue.mkExperimental (Some [])) ->
        listContinueServers servers disk w = (Returns false, w))
  /\ (claude_desktop_config disk = Resolves Null ->
      listClaudeServers servers disk w = (Throws TypeError, w))
  /\ (continue_config disk = Resolves Null ->
      listContinueServers servers disk w = (Throws TypeError, w)).
Proof.
  split; [|split; [|split]].
  - intros config Hfile Hfield.
    apply (listClaudeServers_no_keys servers disk config Hfile).
    destruct Hfield as [-> | ->]; reflexivity.
  - intros config Hfile Hfield.
    apply (listContinueServers_no_valid servers disk config Hfile).
    unfold continueInstalled.
    destruct Hfield as [-> | [-> | ->]]; apply validServers_nil.
  - intros Hfile. apply (listClaudeServers_null servers disk Hfile).
  - intros Hfile. apply (listContinueServers_null servers disk Hfile).
Qed.

Lemma missing_fields_witness :
  listClaudeServers [Samples.fs]
    (mkDisk (Resolves (Wellformed (Claude.mkConfig None)))
            (Resolves (Wellformed (Continue.mkConfig None)))) start
  = (Returns false, start)
  /\ listContinueServers [Samples.fs]
       (mkDisk (Resolves (Wellformed (Claude.mkConfig None)))
               (Resolves (Wellformed
                  (Continue.mkConfig (Some (Continue.mkExperimental None))))))
       start
     = (Returns false, start)
  /\ listClaudeServers [Samples.fs] (mkDisk (Resolves Null) (Resolves Null)) start
     = (Throws TypeError, start)
  /\ listContinueServers [Samples.fs] (mkDisk (Resolves Null) (Resolves Null)) start
     = (Throws TypeError, start).
Proof.
  split; [|split; [|split]].
  - apply (proj1 (missing_fields [Samples.fs] _ start) (Claude.mkConfig None)).
    + reflexivity.
    + left; reflexivity.
  - apply (proj1 (proj2 (missing_fields [Samples.fs] _ start))
             (Continue.mkConfig (Some (Continue.mkExperimental None)))).
    + reflexivity.
    + right; left; reflexivity.
  - apply (proj1 (proj2 (proj2 (missing_fields
                                  [Samples.fs]
                                  (mkDisk (Resolves Null) (Resolves Null))
                                  start)))).
    reflexivity.
  - apply (proj2 (proj2 (proj2 (missing_fields
                                  [Samples.fs]
                                  (mkDisk (Resolves Null) (Resolves Null))
                                  start)))).
    reflexivity.
Defined.

Lemma filter_none {A} (f : A -> bool) (l : list A) :
  (forall x, In x l -> f x = false) -> filter f l = [].
Proof.
  induction l as [|x l IH]; intros H; simpl; [reflexivity|].
  rewrite (H x (or_introl eq_refl)). apply IH. intros y Hy. apply H. now right.
Qed.

Lemma filter_all {A} (f : A -> bool) (l : list A) :
  (forall x, In x l -> f x = true) -> filter f l = l.
Proof.
  induction l as [|x l IH]; intros H; simpl; [reflexivity|].
  rewrite (H x (or_introl eq_refl)). f_equal. apply IH. intros y Hy. apply H. now right.
Qed.

(** X4. With an empty registry Claude's inspector lists every key as unknown,
    in the order of the keys, and Continue's inspector lists nothing,
    whatever its file. *)
Theorem empty_registry (disk : Disk) :
  (forall config,
      claude_desktop_config disk = Resolves (Wellformed config) ->
      inspect (listClaudeServers [] disk)
      = map (fun id => (id, false))
            (Object_keys (orElse (Claude.mcpServers config) [])))
  /\ inspect (listContinueServers [] disk) = [].
Proof.
  split.
  - intros config Hfile.
    rewrite (inspect_listClaudeServers [] disk config Hfile).
    unfold registeredServers, unknownServers.
    rewrite filter_none, filter_all by reflexivity. reflexivity.
  - destruct (inspect_listContinueServers_any [] disk) as [refs ->].
    reflexivity.
Qed.

Lemma empty_registry_witness :
  inspect (listClaudeServers [] (Samples.diskOf ["fs"; "ghost"] [Samples.refFs]))
  = [("fs", false); ("ghost", false)].
Proof.
  exact (proj1 (empty_registry (Samples.diskOf ["fs"; "ghost"] [Samples.refFs]))
           (Samples.claudeConfig ["fs"; "ghost"]) eq_refl).
Defined.




(** ** The shape of a section *)

Lemma forEntries_linesFrom {A} (line : Z -> A -> LogLine) (xs : list A) :
  forall index w,
    forEntries index xs (fun i x => log (line i x)) w
    = (Returns tt, emit w (linesFrom line index xs)).
Proof.
  induction xs as [|x xs IH]; intros index w; simpl.
  - now rewrite emit_nil.
  - unfold bind. rewrite log_emit, IH, emit_emit. reflexivity.
Qed.

Lemma linesFrom_length {A} (line : Z -> A -> LogLine) (xs : list A) :
  forall index, List.length (linesFrom line index xs) = List.length xs.
Proof.
  induction xs as [|x xs IH]; intros index; simpl; [reflexivity|].
  now rewrite IH.
Qed.

Lemma linesFrom_entries {A} (line : Z -> A -> LogLine)
      (entry : A -> string * bool) (xs : list A) :
  (forall i x, entryOf (line i x) = [entry x]) ->
  forall index, entries (linesFrom line index xs) = map entry xs.
Proof.
  intros Hline. induction xs as [|x xs IH]; intros index; [reflexivity|].
  simpl linesFrom. unfold entries in *. simpl. now rewrite Hline, IH.
Qed.

(** A loop that gives the corner to index [n - 1], provided [b] holds, and
    stops at [n]. *)
Lemma linesFrom_connectors {A} (line : Z -> A -> LogLine) (n : Z) (b : bool) :
  (forall i x, connector (line i x)
               = [if ((i =? n - 1)%Z && b)%bool then Corner else Tee]) ->
  forall xs index,
    (index + Z.of_nat (List.length xs) = n)%Z ->
    flat_map connector (linesFrom line index xs)
    = if b then
        match xs with
        | [] => []
        | _ :: rest => repeat Tee (List.length rest) ++ [Corner]
        end
      else repeat Tee (List.length xs).
Proof.
  intros Hline. induction xs as [|x xs IH]; intros index Hn.
  - destruct b; reflexivity.
  - simpl linesFrom. simpl flat_map. rewrite Hline.
    rewrite (IH (index + 1)%Z)
      by (simpl List.length in Hn; rewrite Nat2Z.inj_succ in Hn; lia).
    destruct b.
    + destruct xs as [|y xs].
      * simpl in Hn. replace (index =? n - 1)%Z with true
          by (symmetry; apply Z.eqb_eq; lia).
        reflexivity.
      * replace (index =? n - 1)%Z with false
          by (symmetry; apply Z.eqb_neq; simpl List.length in Hn; lia).
        reflexivity.
    + rewrite andb_false_r. reflexivity.
Qed.

Lemma listClaudeServers_lines (servers : list Registry.Server) (disk : Disk)
      (config : Claude.Config) :
  claude_desktop_config disk = Resolves (Wellformed config) ->
  let installedServers := Object_keys (orElse (Claude.mcpServers config) []) in
  let reg := registeredServers servers installedServers in
  let unk := unknownServers servers installedServers in
  installedServers <> [] ->
  forall w,
    listClaudeServers servers disk w
    = (Returns true,
       emit w
         (Heading claude
          :: linesFrom (fun index serverId =>
                          Linked (if ((index =? lengthZ reg - 1)%Z
                                      && (lengthZ unk =? 0)%Z)%bool
                                  then Corner else Tee) serverId) 0%Z reg
          ++ linesFrom (fun index serverId =>
                          Unknown (if (index =? lengthZ unk - 1)%Z
                                   then Corner else Tee) serverId) 0%Z unk)).
Proof.
  intros Hfile installedServers reg unk Hkeys w. subst reg unk.
  unfold listClaudeServers, tryCatch, bind. rewrite Hfile. simpl.
  fold installedServers. rewrite lengthZ_pos.
  destruct installedServers as [|k ks] eqn:E; [now elim Hkeys|].
  rewrite <- E.
  set (reg := registeredServers servers installedServers).
  set (unk := unknownServers servers installedServers).
  rewrite (forEntries_linesFrom
             (fun index serverId =>
                Linked (if ((index =? lengthZ reg - 1)%Z
                            && (lengthZ unk =? 0)%Z)%bool
                        then Corner else Tee) serverId)).
  cbv beta iota.
  rewrite (forEntries_linesFrom
             (fun index serverId =>
                Unknown (if (index =? lengthZ unk - 1)%Z
                         then Corner else Tee) serverId)).
  unfold ret, emit; simpl. rewrite <- !app_assoc. reflexivity.
Qed.

Lemma listContinueServers_lines (servers : list Registry.Server) (disk : Disk)
      (config : Continue.Config) :
  continue_config disk = Resolves (Wellformed config) ->
  let valid := validServers servers (continueInstalled config) in
  valid <> [] ->
  forall w,
    listContinueServers servers disk w
    = (Returns true,
       emit w
         (Heading continue
          :: linesFrom (fun index serverId =>
                          Linked (if (index =? lengthZ valid - 1)%Z
                                  then Corner else Tee) serverId) 0%Z valid)).
Proof.
  intros Hfile valid Hvalid w.
  unfold listContinueServers, tryCatch, bind. rewrite Hfile. simpl.
  fold valid. rewrite lengthZ_pos.
  destruct valid as [|k ks] eqn:E; [now elim Hvalid|].
  rewrite <- E. clear E Hvalid.
  rewrite (forEntries_linesFrom
             (fun index serverId =>
                Linked (if (index =? lengthZ valid - 1)%Z
                        then Corner else Tee) serverId)).
  unfold ret, emit; simpl. rewrite <- !app_assoc. reflexivity.
Qed.

Lemma printed_silent (m : Eff bool) (c : Completion bool) :
  (forall w, m w = (c, w)) -> printed m = [].
Proof. intros H. unfold printed. rewrite H. reflexivity. Qed.

Lemma printed_emits (m : Eff bool) (c : Completion bool) (ls : list LogLine) :
  (forall w, m w = (c, emit w ls)) -> printed m = ls.
Proof. intros H. unfold printed. rewrite H. reflexivity. Qed.

Lemma partition_length {A} (f : A -> bool) (l : list A) :
  List.length (filter f l) + List.length (filter (fun x => negb (f x)) l)
  = List.length l.
Proof.
  rewrite <- length_app. apply Permutation_length, partition_Permutation.
Qed.

Lemma claude_section (servers : list Registry.Server) (disk : Disk) :
  printed (listClaudeServers servers disk) = []
  \/ TreeSection claude (printed (listClaudeServers servers disk)).
Proof.
  destruct (claude_desktop_config disk) as [code|[| |config]] eqn:Hfile.
  - left. apply (printed_silent _ _ (listClaudeServers_rejects servers disk code Hfile)).
  - left. apply (printed_silent _ _ (listClaudeServers_malformed servers disk Hfile)).
  - left. apply (printed_silent _ _ (listClaudeServers_null servers disk Hfile)).
  - destruct (Object_keys (orElse (Claude.mcpServers config) [])) as [|k ks] eqn:Hkeys.
    + left.
      apply (printed_silent _ _ (listClaudeServers_no_keys servers disk config Hfile Hkeys)).
    + right.
      assert (Hne : Object_keys (orElse (Claude.mcpServers config) []) <> [])
        by (rewrite Hkeys; discriminate).
      rewrite (printed_emits _ _ _
                 (listClaudeServers_lines servers disk config Hfile Hne)).
      set (reg := registeredServers servers
                    (Object_keys (orElse (Claude.mcpServers config) []))).
      set (unk := unknownServers servers
                    (Object_keys (orElse (Claude.mcpServers config) []))).
      assert (Hlen : List.length reg + List.length unk = S (List.length ks)).
      { transitivity (List.length
                        (Object_keys (orElse (Claude.mcpServers config) []))).
        - apply (partition_length
                   (fun id => some (fun s => (Registry.id s =? id)%string) servers)).
        - now rewrite Hkeys. }
      eexists. split; [reflexivity|]. split; [|split].
      * intros Hnil. apply (f_equal (@List.length LogLine)) in Hnil.
        rewrite length_app, !linesFrom_length in Hnil. simpl in Hnil. lia.
      * rewrite entries_app, !length_app.
        rewrite (linesFrom_entries _ (fun id => (id, true))) by reflexivity.
        rewrite (linesFrom_entries _ (fun id => (id, false))) by reflexivity.
        now rewrite !length_map, !linesFrom_length.
      * rewrite flat_map_app, length_app, !linesFrom_length.
        rewrite (linesFrom_connectors _ (lengthZ reg) (lengthZ unk =? 0)%Z)
          by (reflexivity || (unfold lengthZ; lia)).
        rewrite (linesFrom_connectors _ (lengthZ unk) true)
          by ((intros; simpl; now rewrite andb_true_r) || (unfold lengthZ; lia)).
        destruct unk as [|u unk'].
        -- simpl. destruct reg as [|r reg']; [simpl in Hlen; lia|].
           simpl. rewrite app_nil_r, Nat.add_0_r, Nat.sub_0_r. reflexivity.
        -- replace (lengthZ (u :: unk') =? 0)%Z with false
             by (symmetry; apply Z.eqb_neq; unfold lengthZ; simpl List.length; lia).
           simpl List.length.
           replace (List.length reg + S (List.length unk') - 1)
             with (List.length reg + List.length unk') by lia.
           rewrite repeat_app, <- app_assoc. reflexivity.
Qed.

Lemma continue_section (servers : list Registry.Server) (disk : Disk) :
  printed (listContinueServers servers disk) = []
  \/ TreeSection continue (printed (listContinueServers servers disk)).
Proof.
  destruct (continue_config disk) as [code|[| |config]] eqn:Hfile.
  - left. apply (printed_silent _ _ (listContinueServers_rejects servers disk code Hfile)).
  - left. apply (printed_silent _ _ (listContinueServers_malformed servers disk Hfile)).
  - left. apply (printed_silent _ _ (listContinueServers_null servers disk Hfile)).
  - destruct (validServers servers (continueInstalled config)) as [|k ks] eqn:Hvalid.
    + left.
      apply (printed_silent _ _ (listContinueServers_no_valid servers disk config Hfile Hvalid)).
    + right.
      assert (Hne : validServers servers (continueInstalled config) <> [])
        by (rewrite Hvalid; discriminate).
      rewrite (printed_emits _ _ _
                 (listContinueServers_lines servers disk config Hfile Hne)).
      set (valid := validServers servers (continueInstalled config)) in *.
      eexists. split; [reflexivity|]. split; [|split].
      * intros Hnil. apply (f_equal (@List.length LogLine)) in Hnil.
        rewrite linesFrom_length, Hvalid in Hnil. discriminate Hnil.
      * rewrite (linesFrom_entries _ (fun id => (id, true))) by reflexivity.
        now rewrite length_map, linesFrom_length.
      * rewrite linesFrom_length.
        rewrite (linesFrom_connectors _ (lengthZ valid) true)
          by ((intros; simpl; now rewrite andb_true_r) || (unfold lengthZ; lia)).
        rewrite Hvalid. simpl. rewrite Nat.sub_0_r. reflexivity.
Qed.

(** X6. What an inspector prints is either nothing or a section: the heading
    of its client followed by the lines of its entries and nothing else,
    where the last line, and only the last, carries the corner connector. *)
Theorem tree_shape (servers : list Registry.Server) (disk : Disk) :
  (printed (listClaudeServers servers disk) = []
   \/ TreeSection claude (printed (listClaudeServers servers disk)))
  /\ (printed (listContinueServers servers disk) = []
      \/ TreeSection continue (printed (listContinueServers servers disk))).
Proof.
  split; [apply claude_section | apply continue_section].
Qed.

(** ** What the command prints *)

Lemma listClaudeServers_file (servers : list Registry.Server) (disk disk' : Disk) :
  claude_desktop_config disk = claude_desktop_config disk' ->
  forall w, listClaudeServers servers disk w = listClaudeServers servers disk' w.
Proof. intros H w. unfold listClaudeServers. now rewrite H. Qed.

Lemma listContinueServers_file (servers : list Registry.Server) (disk disk' : Disk) :
  continue_config disk = continue_config disk' ->
  forall w, listContinueServers servers disk w = listContinueServers servers disk' w.
Proof. intros H w. unfold listContinueServers. now rewrite H. Qed.

(** X7. With a client selected the command looks at the file of that client
    only: it does the same on two disks that agree on that file, whatever
    the file of the other client is, broken or not. *)
Theorem selected_client_only
        (servers : list Registry.Server) (disk disk' : Disk) (w : World) :
  (claude_desktop_config disk = claude_desktop_config disk' ->
   run servers disk (mkFlags (Some claude)) w
   = run servers disk' (mkFlags (Some claude)) w)
  /\ (continue_config disk = continue_config disk' ->
      run servers disk (mkFlags (Some continue)) w
      = run servers disk' (mkFlags (Some continue)) w).
Proof.
  split; intros Hfile.
  - destruct (listClaudeServers_settled servers disk) as [c [ls [Hrun _]]].
    rewrite (run_claude servers disk c ls Hrun).
    rewrite (run_claude servers disk' c ls); [reflexivity|].
    intros w'. rewrite <- Hrun. symmetry.
    now apply listClaudeServers_file.
  - destruct (listContinueServers_settled servers disk) as [c [ls [Hrun _]]].
    rewrite (run_continue servers disk c ls Hrun).
    rewrite (run_continue servers disk' c ls); [reflexivity|].
    intros w'. rewrite <- Hrun. symmetry.
    now apply listContinueServers_file.
Qed.

Lemma selected_client_only_witness :
  run [Samples.fs] (Samples.diskOf ["fs"] [Samples.refFs])
      (mkFlags (Some claude)) start
  = run [Samples.fs]
        (mkDisk (Resolves (Wellformed (Samples.claudeConfig ["fs"])))
                (Resolves Malformed))
        (mkFlags (Some claude)) start.
Proof.
  apply (proj1 (selected_client_only
                  [Samples.fs] (Samples.diskOf ["fs"] [Samples.refFs])
                  (mkDisk (Resolves (Wellformed (Samples.claudeConfig ["fs"])))
                          (Resolves Malformed))
                  start)).
  reflexivity.
Defined.

(** X8. When the command ends normally its output is: the section of each
    client it looked at, Claude before Continue, each as the inspector prints
    it on its own; then the line saying that nothing is installed, naming
    the selected client if there is one, exactly when [foundServers] is
    [false]; then an empty line. *)
Theorem run_output
        (servers : list Registry.Server) (disk : Disk) (flags : Flags) (w : World) :
  fst (run servers disk flags w) = Returns tt ->
  stdout (snd (run servers disk flags w))
  = stdout w
    ++ match client flags with
       | Some claude => printed (listClaudeServers servers disk)
       | Some continue => printed (listContinueServers servers disk)
       | None => printed (listClaudeServers servers disk)
                 ++ printed (listContinueServers servers disk)
       end
    ++ (if foundServers (snd (run servers disk flags w)) then []
        else [match client flags with
              | Some c => NothingOn c
              | None => Nothing
              end])
    ++ [Empty].
Proof.
  destruct (listClaudeServers_settled servers disk) as [c1 [ls1 [H1 _]]].
  destruct (listContinueServers_settled servers disk) as [c2 [ls2 [H2 _]]].
  rewrite (printed_emits _ _ _ H1), (printed_emits _ _ _ H2).
  destruct flags as [[[|]|]]; simpl client.
  - rewrite (run_claude servers disk c1 ls1 H1).
    destruct c1 as [[|]|e1]; simpl; intros H; [reflexivity|reflexivity|discriminate H].
  - rewrite (run_continue servers disk c2 ls2 H2).
    destruct c2 as [[|]|e2]; simpl; intros H; [reflexivity|reflexivity|discriminate H].
  - rewrite (run_all servers disk c1 c2 ls1 ls2 H1 H2). simpl. intros _.
    now rewrite <- !app_assoc.
Qed.

Lemma run_output_witness :
  stdout (snd (run [Samples.fs] (Samples.diskOf ["fs"; "ghost"] [Samples.refFs])
                   (mkFlags None) start))
  = [Heading claude; Linked Tee "fs"; Unknown Corner "ghost";
     Heading continue; Linked Corner "fs"; Empty].
Proof.
  exact (run_output [Samples.fs] (Samples.diskOf ["fs"; "ghost"] [Samples.refFs])
           (mkFlags None) start eq_refl).
Defined.

(** ** How the inspectors and the command fail *)

(** X9. An inspector that throws has printed nothing, and the error it
    throws is never the ENOENT error of a missing file. *)
Theorem inspector_failure
        (servers : list Registry.Server) (disk : Disk) (w : World) (error : JsError) :
  (fst (listClaudeServers servers disk w) = Throws error ->
   snd (listClaudeServers servers disk w) = w /\ isENOENT error = false)
  /\ (fst (listContinueServers servers disk w) = Throws error ->
      snd (listContinueServers servers disk w) = w /\ isENOENT error = false).
Proof.
  split.
  - destruct (claude_desktop_config disk) as [code|[| |config]] eqn:Hfile.
    + rewrite (listClaudeServers_rejects servers disk code Hfile). simpl.
      destruct (code =? "ENOENT")%string eqn:Hcode; simpl; intros H;
        [discriminate H|]. injection H as <-. now split.
    + rewrite (listClaudeServers_malformed servers disk Hfile). simpl.
      intros H. injection H as <-. now split.
    + rewrite (listClaudeServers_null servers disk Hfile). simpl.
      intros H. injection H as <-. now split.
    + destruct (listClaudeServers_wellformed servers disk config Hfile)
        as [ls [Hrun _]]. rewrite Hrun. simpl. intros H. discriminate H.
  - destruct (continue_config disk) as [code|[| |config]] eqn:Hfile.
    + rewrite (listContinueServers_rejects servers disk code Hfile). simpl.
      destruct (code =? "ENOENT")%string eqn:Hcode; simpl; intros H;
        [discriminate H|]. injection H as <-. now split.
    + rewrite (listContinueServers_malformed servers disk Hfile). simpl.
      intros H. injection H as <-. now split.
    + rewrite (listContinueServers_null servers disk Hfile). simpl.
      intros H. injection H as <-. now split.
    + destruct (listContinueServers_wellformed servers disk config Hfile)
        as [ls [Hrun _]]. rewrite Hrun. simpl. intros H. discriminate H.
Qed.

Lemma inspector_failure_witness :
  snd (listContinueServers [Samples.fs]
         (mkDisk (Rejects "ENOENT") (Rejects "EISDIR")) start) = start
  /\ isENOENT (SystemError "EISDIR") = false.
Proof.
  exact (proj2 (inspector_failure [Samples.fs]
                  (mkDisk (Rejects "ENOENT") (Rejects "EISDIR")) start
                  (SystemError "EISDIR"))
           eq_refl).
Defined.

(** X10. The command fails in one way only: a client is selected and the
    inspector of that client throws.  The command then throws the same error
    and has printed nothing, not even the closing empty line. *)
Theorem run_failure
        (servers : list Registry.Server) (disk : Disk) (flags : Flags)
        (w : World) (error : JsError) :
  fst (run servers disk flags w) = Throws error ->
  ((client flags = Some claude
    /\ fst (listClaudeServers servers disk w) = Throws error)
   \/ (client flags = Some continue
       /\ fst (listContinueServers servers disk w) = Throws error))
  /\ stdout (snd (run servers disk flags w)) = stdout w.
Proof.
  destruct (listClaudeServers_settled servers disk) as [c1 [ls1 [H1 [_ N1]]]].
  destruct (listContinueServers_settled servers disk) as [c2 [ls2 [H2 [_ N2]]]].
  rewrite H1, H2.
  destruct flags as [[[|]|]]; simpl client.
  - rewrite (run_claude servers disk c1 ls1 H1).
    destruct c1 as [found|e1]; simpl; intros H; [discriminate H|].
    injection H as <-. rewrite N1 by discriminate. rewrite app_nil_r.
    split; [left; now split | reflexivity].
  - rewrite (run_continue servers disk c2 ls2 H2).
    destruct c2 as [found|e2]; simpl; intros H; [discriminate H|].
    injection H as <-. rewrite N2 by discriminate. rewrite app_nil_r.
    split; [right; now split | reflexivity].
  - rewrite (run_all servers disk c1 c2 ls1 ls2 H1 H2). simpl.
    intros H. discriminate H.
Qed.

Lemma run_failure_witness :
  ((Some continue = Some claude
    /\ fst (listClaudeServers [Samples.fs]
              (mkDisk (Rejects "ENOENT") (Resolves Malformed)) start)
       = Throws SyntaxError)
   \/ (Some continue = Some continue
       /\ fst (listContinueServers [Samples.fs]
                 (mkDisk (Rejects "ENOENT") (Resolves Malformed)) start)
          = Throws SyntaxError))
  /\ stdout (snd (run [Samples.fs]
                      (mkDisk (Rejects "ENOENT") (Resolves Malformed))
                      (mkFlags (Some continue)) start)) = [].
Proof.
  exact (run_failure [Samples.fs]
           (mkDisk (Rejects "ENOENT") (Resolves Malformed))
           (mkFlags (Some continue)) start SyntaxError eq_refl).
Defined.

(** ** Edges of the structural match *)

(** X11. A reference with fewer arguments than the template never matches; a
    reference with another command never matches; and a registry server with
    an empty template is matched by every reference with its command. *)
Theorem structural_match_edges (r : Registry.Server) (ref : Continue.Installed) :
  (List.length (Continue.args (Continue.transport ref))
   < List.length (Registry.args (Registry.config r)) ->
   structuralMatch r ref = false)
  /\ (Continue.command (Continue.transport ref)
      <> Registry.command (Registry.config r) ->
      structuralMatch r ref = false)
  /\ (Registry.args (Registry.config r) = [] ->
      Continue.command (Continue.transport ref)
      = Registry.command (Registry.config r) ->
      structuralMatch r ref = true).
Proof.
  split; [|split].
  - intros Hshort. apply not_true_is_false. intros Hmatch.
    apply structuralMatch_iff in Hmatch. destruct Hmatch as [_ Hprefix].
    apply (f_equal (@List.length string)) in Hprefix.
    rewrite length_firstn in Hprefix. lia.
  - intros Hcommand. apply not_true_is_false. intros Hmatch.
    apply structuralMatch_iff in Hmatch. destruct Hmatch as [Hsame _].
    exact (Hcommand Hsame).
  - intros Hempty Hcommand. apply structuralMatch_iff.
    split; [exact Hcommand|]. now rewrite Hempty.
Qed.

Lemma structural_match_edges_witness :
  structuralMatch Samples.fs (Samples.installed "npx" ["-y"]) = false
  /\ structuralMatch Samples.fs (Samples.installed "node" ["-y"; "fs-server"]) = false
  /\ structuralMatch (Registry.mkServer "bare" (Registry.mkConfig "npx" []))
                     Samples.refOther = true.
Proof.
  split; [|split].
  - apply (proj1 (structural_match_edges
                    Samples.fs (Samples.installed "npx" ["-y"]))).
    simpl. lia.
  - apply (proj1 (proj2 (structural_match_edges
                           Samples.fs
                           (Samples.installed "node" ["-y"; "fs-server"])))).
    discriminate.
  - apply (proj2 (proj2 (structural_match_edges
                           (Registry.mkServer "bare" (Registry.mkConfig "npx" []))
                           Samples.refOther))); reflexivity.
Defined.

(** ** Continue's listing as a function of the registry and of the file *)

Lemma validServers_app (servers1 servers2 : list Registry.Server)
      (refs : list Continue.Installed) :
  validServers (servers1 ++ servers2) refs
  = validServers servers1 refs ++ validServers servers2 refs.
Proof. unfold validServers. now rewrite filter_app, map_app. Qed.

(** X12. Continue's listing for a registry made of two parts is the listing
    for the first part followed by the listing for the second part. *)
Theorem continue_registry_app
        (servers1 servers2 : list Registry.Server) (disk : Disk) :
  inspect (listContinueServers (servers1 ++ servers2) disk)
  = inspect (listContinueServers servers1 disk)
    ++ inspect (listContinueServers servers2 disk).
Proof.
  destruct (continue_config disk) as [code|[| |config]] eqn:Hfile.
  - now rewrite !(inspect_silent _ _ (listContinueServers_rejects _ disk code Hfile)).
  - now rewrite !(inspect_silent _ _ (listContinueServers_malformed _ disk Hfile)).
  - now rewrite !(inspect_silent _ _ (listContinueServers_null _ disk Hfile)).
  - rewrite !(inspect_listContinueServers _ disk config Hfile).
    now rewrite validServers_app, map_app.
Qed.




(** X14. Adding references to Continue's file never removes an entry: every
    entry listed for a file is listed for any file that holds at least the
    same references. *)
Theorem continue_more_references
        (servers : list Registry.Server) (disk disk' : Disk)
        (config config' : Continue.Config) :
  continue_config disk = Resolves (Wellformed config) ->
  continue_config disk' = Resolves (Wellformed config') ->
  incl (continueInstalled config) (continueInstalled config') ->
  incl (inspect (listContinueServers servers disk))
       (inspect (listContinueServers servers disk')).
Proof.
  intros Hfile Hfile' Hincl e He.
  apply (listContinueServers_In servers disk' config' e Hfile').
  apply (listContinueServers_In servers disk config e Hfile) in He.
  destruct He as [r [ref [Hr [Href [Hmatch He]]]]].
  exists r, ref. repeat split; trivial. now apply Hincl.
Qed.

Lemma continue_more_references_witness :
  incl (inspect (listContinueServers [Samples.fs; Samples.git]
                   (Samples.diskOf [] [Samples.refFs])))
       (inspect (listContinueServers [Samples.fs; Samples.git]
                   (Samples.diskOf [] [Samples.refGit; Samples.refFs]))).
Proof.
  apply (continue_more_references
           [Samples.fs; Samples.git]
           (Samples.diskOf [] [Samples.refFs])
           (Samples.diskOf [] [Samples.refGit; Samples.refFs])
           (Samples.continueConfig [Samples.refFs])
           (Samples.continueConfig [Samples.refGit; Samples.refFs])
           eq_refl eq_refl).
  intros ref [<-|[]]. right; left; reflexivity.
Defined.

(** ** The text of the lines *)

Lemma string_length_app (a b : string) :
  String.length (a ++ b)%string = String.length a + String.length b.
Proof. induction a as [|x a IH]; simpl; [reflexivity | now rewrite IH]. Qed.

Lemma append_cancel_l (a b c : string) : (a ++ b = a ++ c)%string -> b = c.
Proof.
  induction a as [|x a IH]; simpl; intros H; [exact H|].
  injection H as H. now apply IH.
Qed.

Lemma append_inj_length (a a' b b' : string) :
  String.length a = String.length a' ->
  (a ++ b = a' ++ b')%string -> a = a' /\ b = b'.
Proof.
  revert a'. induction a as [|x a IH]; intros [|x' a'] Hlen H;
    try discriminate Hlen.
  - now split.
  - simpl in H. injection H as -> H. injection Hlen as Hlen.
    destruct (IH a' Hlen H) as [-> ->]. now split.
Qed.

(** An identifier followed by a fixed tail, twice over or once, gives the
    identifier back. *)
Lemma twice_inj (id1 id2 sep tail : string) :
  (id1 ++ sep ++ id1 ++ tail = id2 ++ sep ++ id2 ++ tail)%string -> id1 = id2.
Proof.
  intros H. assert (Hlen : String.length id1 = String.length id2).
  { apply (f_equal String.length) in H. rewrite !string_length_app in H. lia. }
  now destruct (append_inj_length _ _ _ _ Hlen H).
Qed.

Lemma once_inj (id1 id2 tail : string) :
  (id1 ++ tail = id2 ++ tail)%string -> id1 = id2.
Proof.
  intros H. assert (Hlen : String.length id1 = String.length id2).
  { apply (f_equal String.length) in H. rewrite !string_length_app in H. lia. }
  now destruct (append_inj_length _ _ _ _ Hlen H).
Qed.

Lemma renderPrefix_inj (p1 p2 : Prefix) (t1 t2 : string) :
  (renderPrefix p1 ++ t1 = renderPrefix p2 ++ t2)%string -> p1 = p2 /\ t1 = t2.
Proof.
  intros H. apply append_inj_length in H.
  - destruct H as [Hp ->]. split; [|reflexivity].
    destruct p1, p2; try reflexivity; discriminate Hp.
  - destruct p1, p2; reflexivity.
Qed.

Lemma render_Linked_inj (p1 p2 : Prefix) (id1 id2 : string) :
  render (Linked p1 id1) = render (Linked p2 id2) -> Linked p1 id1 = Linked p2 id2.
Proof.
  unfold render. intros H. apply renderPrefix_inj in H. destruct H as [-> H].
  do 2 apply append_cancel_l in H. apply twice_inj in H. now rewrite H.
Qed.

Lemma render_Unknown_inj (p1 p2 : Prefix) (id1 id2 : string) :
  render (Unknown p1 id1) = render (Unknown p2 id2) ->
  Unknown p1 id1 = Unknown p2 id2.
Proof.
  unfold render. intros H. do 2 apply append_cancel_l in H.
  apply renderPrefix_inj in H. destruct H as [-> H].
  apply once_inj in H. now rewrite H.
Qed.

(** X15. Two different lines never have the same text: the kind of a line,
    its connector and its identifier can be read back from what is printed.
    In particular the line of an unknown server is never the text of the
    line of a registry server. *)
Theorem render_inj (l1 l2 : LogLine) : render l1 = render l2 -> l1 = l2.
Proof.
  intros H.
  destruct l1 as [c1|p1 id1|p1 id1|c1| |], l2 as [c2|p2 id2|p2 id2|c2| |];
    try reflexivity;
    try (now apply render_Linked_inj);
    try (now apply render_Unknown_inj);
    try (exfalso;
         repeat match goal with
                | p : Prefix |- _ => destruct p
                | c : Client |- _ => destruct c
                end;
         discriminate H).
  - destruct c1, c2; try reflexivity; discriminate H.
  - destruct c1, c2; try reflexivity; discriminate H.
Qed.

Lemma render_inj_witness :
  Linked Corner "fs" = Linked Corner ("f" ++ "s").
Proof.
  apply (render_inj (Linked Corner "fs") (Linked Corner ("f" ++ "s"))).
  reflexivity.
Defined.

(** ** Claude with keys of its own *)

(** X16. When Claude is selected and [mcpServers] holds at least one key, the
    command counts Claude as having servers and does not print that nothing
    is installed, even if the registry knows none of the keys. *)
Theorem claude_any_key_counts
        (servers : list Registry.Server) (disk : Disk)
        (config : Claude.Config) (w : World) :
  claude_desktop_config disk = Resolves (Wellformed config) ->
  Object_keys (orElse (Claude.mcpServers config) []) <> [] ->
  fst (run servers disk (mkFlags (Some claude)) w) = Returns tt
  /\ foundServers (snd (run servers disk (mkFlags (Some claude)) w)) = true
  /\ stdout (snd (run servers disk (mkFlags (Some claude)) w))
     = stdout w ++ printed (listClaudeServers servers disk) ++ [Empty].
Proof.
  intros Hfile Hkeys.
  pose proof (listClaudeServers_lines servers disk config Hfile Hkeys) as Hrun.
  cbv zeta in Hrun.
  rewrite (printed_emits _ _ _ Hrun).
  rewrite (run_claude servers disk (Returns true) _ Hrun). simpl.
  repeat split.
Qed.

Lemma claude_any_key_counts_witness :
  run [] (Samples.diskOf ["ghost"] []) (mkFlags (Some claude)) start
  = (Returns tt, mkWorld true [Heading claude; Unknown Corner "ghost"; Empty]).
Proof.
  pose proof (claude_any_key_counts
                [] (Samples.diskOf ["ghost"] [])
                (Samples.claudeConfig ["ghost"]) start eq_refl) as H.
  destruct H as [Hreturns [Hfound Hout]]; [discriminate|].
  destruct (run [] (Samples.diskOf ["ghost"] []) (mkFlags (Some claude)) start)
    as [c [found out]].
  simpl in Hreturns, Hfound, Hout. now subst.
Defined.
